(** * chessmaster3000: pseudo-legal move generation

    A shallow embedding of [chessmaster3000.js] (the position model, the
    geometry predicates, the leaper / rider / pawn / castling rules and the
    per-player aggregator) together with the properties the specification
    states about them.

    Conventions of the embedding:
    - ranks and files are JavaScript numbers holding integers: [Z];
    - the position object [state] is threaded through every function by a
      state-and-error monad [M]: a property read of [undefined] is the error
      [TypeError], and the [while] loop of the rider is bounded by fuel;
    - local arrays ([moves], [spaces], [pos]) are values: they are created
      by the call that uses them and never escape before it returns. *)

From Stdlib Require Import ZArith List String Ascii Bool Lia DecimalString.
From Stdlib Require Import DecimalPos Permutation.
Import ListNotations.
Local Open Scope Z_scope.

(** ** Position model *)

(** The [owner] strings ['w'] and ['b']. *)
Inductive player : Type := White | Black.

(** The normalised piece letter stored in a cell: ['p' 'n' 'b' 'r' 'q' 'k'],
    or ['x'] for an empty space. *)
Inductive letter : Type := Lp | Ln | Lb | Lr | Lq | Lk | Lx.

(** A board cell [{p, rank, file, owner}]; [owner] is [null] on an empty
    space. *)
Record cell : Type := mkCell {
  c_p : letter;
  c_rank : Z;
  c_file : Z;
  c_owner : option player
}.

(** [{k, q}]: kingside and queenside availability. *)
Record rights : Type := mkRights { r_k : bool; r_q : bool }.

(** [{w: {k, q}, b: {k, q}}]. *)
Record castlingTable : Type := mkCastling { cast_w : rights; cast_b : rights }.

(** The game state [{board, playerTurn, castling, enPassant}]. *)
Record state : Type := mkState {
  st_board : list (list cell);
  st_playerTurn : player;
  st_castling : castlingTable;
  st_enPassant : option (Z * Z)
}.

(** A move record [{piece, fromRank, fromFile, toRank, toFile, castle}].
    Ordinary moves carry no [castle] property; reading it gives a falsy
    value, which is [false] here. *)
Record move : Type := mkMove {
  piece : letter;
  fromRank : Z;
  fromFile : Z;
  toRank : Z;
  toFile : Z;
  castle : bool
}.

Definition player_eqb (a b : player) : bool :=
  match a, b with
  | White, White | Black, Black => true
  | _, _ => false
  end.

(** Strict equality [===] on owner values (['w'], ['b'] or [null]). *)
Definition owner_eqb (a b : option player) : bool :=
  match a, b with
  | Some x, Some y => player_eqb x y
  | None, None => true
  | _, _ => false
  end.

Definition letter_eqb (a b : letter) : bool :=
  match a, b with
  | Lp, Lp | Ln, Ln | Lb, Lb | Lr, Lr | Lq, Lq | Lk, Lk | Lx, Lx => true
  | _, _ => false
  end.

Definition sq_eqb (a b : Z * Z) : bool :=
  (fst a =? fst b) && (snd a =? snd b).

(** ** Outcomes and the monad *)

Inductive error : Type :=
| TypeError    (* a property of [undefined] was read, or [undefined] called *)
| OutOfFuel    (* the loop bound of the model was reached *)
| NotANumber.  (* a NaN arose; numbers of the model are integers *)

Inductive result (A : Type) : Type :=
| Ok (a : A)
| Err (e : error).
Arguments Ok {A} a.
Arguments Err {A} e.

Definition M (A : Type) : Type := state -> result A * state.

Definition ret {A} (a : A) : M A := fun s => (Ok a, s).

Definition throw {A} (e : error) : M A := fun s => (Err e, s).

Definition bind {A B} (m : M A) (k : A -> M B) : M B :=
  fun s => match m s with
           | (Ok a, s') => k a s'
           | (Err e, s') => (Err e, s')
           end.

Definition gets {A} (f : state -> A) : M A := fun s => (Ok (f s), s).

Definition liftR {A} (r : result A) : M A := fun s => (r, s).

Notation "x <- m ;; k" := (bind m (fun x => k))
  (at level 61, m at next level, right associativity).

(** [arr.filter(f)] with a callback that reads the state. *)
Fixpoint filterM {A} (f : A -> M bool) (l : list A) : M (list A) :=
  match l with
  | [] => ret []
  | x :: xs =>
      keep <- f x ;;
      rest <- filterM f xs ;;
      ret (if keep then x :: rest else rest)
  end.

(** [arr.reduce(f, init)] with a callback that reads the state. *)
Fixpoint foldM {A B} (f : B -> A -> M B) (l : list A) (init : B) : M B :=
  match l with
  | [] => ret init
  | x :: xs => acc <- f init x ;; foldM f xs acc
  end.

(** [arr.map(f)] with a callback that may produce NaN. *)
Fixpoint mapR {A B} (f : A -> result B) (l : list A) : result (list B) :=
  match l with
  | [] => Ok []
  | x :: xs =>
      match f x with
      | Err e => Err e
      | Ok y => match mapR f xs with
                | Err e => Err e
                | Ok ys => Ok (y :: ys)
                end
      end
  end.

(** [arr[i]]: [undefined] (here [None]) outside the array. *)
Definition index {A} (arr : list A) (i : Z) : option A :=
  if i <? 0 then None else nth_error arr (Z.to_nat i).

(** [state.board[rank][file].owner]; throws when the row or the cell is
    [undefined]. *)
Definition boardOwner (rank file : Z) : M (option player) :=
  board <- gets st_board ;;
  match index board rank with
  | None => throw TypeError
  | Some row =>
      match index row file with
      | None => throw TypeError
      | Some c => ret (c_owner c)
      end
  end.

(** ** Geometry predicates *)

(** checks to see if position is within the bounds of the board *)
Definition onBoard (rank file : Z) : bool :=
  (rank >=? 0) && (rank <=? 7) && (file >=? 0) && (file <=? 7).

(** checks to see if position is not empty (empty spaces have null owner) *)
Definition pieceAt (rank file : Z) : M bool :=
  if onBoard rank file then
    o <- boardOwner rank file ;;
    ret (negb (owner_eqb o None))
  else ret false.

(** checks to see if position is not empty and target piece is owned by a
    specific player *)
Definition ownedPieceAt (rank file : Z) (player : option player) : M bool :=
  if onBoard rank file then
    o <- boardOwner rank file ;;
    ret (owner_eqb o player)
  else ret false.

(** checks to see if position is empty or contains an opponent's piece *)
Definition movableSpace (rank file : Z) (player : option player) : M bool :=
  if onBoard rank file then
    o <- boardOwner rank file ;;
    if owner_eqb o None then ret true
    else
      o' <- boardOwner rank file ;;
      ret (negb (owner_eqb o' player))
  else ret false.

(** checks to see if position supports an 'en passant' attack *)
Definition enPassant (rank file : Z) : M bool :=
  ep <- gets st_enPassant ;;
  match ep with
  | None => ret false
  | Some (r, f) => ret ((r =? rank) && (f =? file))
  end.

(** ** Numbers, strings and the set of mirrored directions *)

(** The values an entry of a mirrored direction can take: an integer, or
    the negative zero that [0 * -1] evaluates to. *)
Inductive num : Type := Int (z : Z) | NegZero.

(** [x * -1] for an integer [x]. *)
Definition mulNegOne (x : Z) : num :=
  if x =? 0 then NegZero else Int (- x).

(** [Number.prototype.toString]: decimal digits with a leading ["-"] for a
    negative integer; negative zero prints as ["0"].  (Plain decimal is
    what JavaScript prints for an integer of absolute value below 10^21;
    the coordinates, directions and counts of the program are far
    below.) *)
Definition numToString (n : num) : string :=
  match n with
  | Int z => NilZero.string_of_int (Z.to_int z)
  | NegZero => "0"%string
  end.

(** [Array.prototype.toString]: the elements' strings joined by [","]. *)
Definition arrayToString (arr : list num) : string :=
  String.concat "," (map numToString arr).

(** [set.add(s)] on a [Set] of strings, kept in insertion order (the order
    in which [set.values()] yields them). *)
Definition setAdd (set : list string) (s : string) : list string :=
  if existsb (String.eqb s) set then set else set ++ [s].

(** mirror each direction over x and y *)
Definition symmetricalDirs (dirs : list (Z * Z)) : list string :=
  fold_left
    (fun set dir =>
       let set := setAdd set (arrayToString [Int (fst dir); Int (snd dir)]) in
       let set := setAdd set (arrayToString [mulNegOne (fst dir); Int (snd dir)]) in
       let set := setAdd set (arrayToString [Int (fst dir); mulNegOne (snd dir)]) in
       let set := setAdd set (arrayToString [mulNegOne (fst dir); mulNegOne (snd dir)]) in
       set)
    dirs [].

(** [str.split(sep)] for a one-character separator. *)
Fixpoint split (sep : ascii) (s : string) : list string :=
  match s with
  | EmptyString => [EmptyString]
  | String c rest =>
      if Ascii.eqb c sep then EmptyString :: split sep rest
      else match split sep rest with
           | [] => [String c EmptyString]
           | w :: ws => String c w :: ws
           end
  end.

Definition digitVal (c : ascii) : option Z :=
  let n := Z.of_nat (nat_of_ascii c) in
  if (48 <=? n) && (n <=? 57) then Some (n - 48) else None.

(** The longest prefix of decimal digits, as a number; [None] when the
    string does not start with a digit. *)
Fixpoint parseDigits (s : string) (acc : option Z) : option Z :=
  match s with
  | EmptyString => acc
  | String c rest =>
      match digitVal c with
      | Some d =>
          parseDigits rest
            (Some (10 * match acc with Some a => a | None => 0 end + d))
      | None => acc
      end
  end.

(** [parseInt(s)] on an optional sign followed by decimal digits, which is
    what [toString] produces; [None] is NaN.  (Leading white space and
    the hexadecimal prefix are not modelled.) *)
Definition parseInt (s : string) : option Z :=
  match s with
  | String "-" rest => option_map Z.opp (parseDigits rest None)
  | String "+" rest => parseDigits rest None
  | _ => parseDigits s None
  end.

(** [dirStr.split(',').map(dir => parseInt(dir))], read at [dir[0]] and
    [dir[1]]. *)
Definition parseDir (dirStr : string) : result (Z * Z) :=
  match map parseInt (split "," dirStr) with
  | Some d0 :: Some d1 :: _ => Ok (d0, d1)
  | _ => Err NotANumber
  end.

(** ** Reusable symmetrical moveset functions *)

(** pieces that jump over pieces (knight, king) *)
Definition leaper (dirs : list (Z * Z)) (p : cell) : M (list (Z * Z)) :=
  let rank := c_rank p in
  let file := c_file p in
  parsed <- liftR (mapR parseDir (symmetricalDirs dirs)) ;;
  validMoves <-
    filterM (fun dir => movableSpace (rank + fst dir) (file + snd dir) (c_owner p))
            parsed ;;
  ret (map (fun dir => (rank + fst dir, file + snd dir)) validMoves).

(** move until we get to a piece or the edge of the board: the [while] loop
    of [getAllSpacesInDir]; one unit of fuel per execution of its body.
    Returns [spaces] and [pos] as they are when the loop exits. *)
Fixpoint walk (fuel : nat) (dir pos : Z * Z) (spaces : list (Z * Z))
  : M (list (Z * Z) * (Z * Z)) :=
  continue <- (if onBoard (fst pos) (snd pos) then
                 occupied <- pieceAt (fst pos) (snd pos) ;;
                 ret (negb occupied)
               else ret false) ;;
  if continue then
    match fuel with
    | O => throw OutOfFuel
    | S fuel' =>
        walk fuel' dir (fst pos + fst dir, snd pos + snd dir) (spaces ++ [pos])
    end
  else ret (spaces, pos).

(** walk along direction starting from rank and file of surrounding scope *)
Definition getAllSpacesInDir (fuel : nat) (rank file : Z)
    (opponent : option player) (dir : Z * Z) : M (list (Z * Z)) :=
  let pos := (rank + fst dir, file + snd dir) in
  r <- walk fuel dir pos [] ;;
  let spaces := fst r in
  let pos := snd r in
  (* check the piece we just hit, and add it if it is an opponent piece *)
  hit <- ownedPieceAt (fst pos) (snd pos) opponent ;;
  ret (if hit then spaces ++ [pos] else spaces).

(** [p.owner === 'w' ? 'b' : 'w'] *)
Definition opponentOf (owner : option player) : option player :=
  if owner_eqb owner (Some White) then Some Black else Some White.

(** pieces move as long as nothing obstructs (rook, bishop, queen) *)
Definition rider (fuel : nat) (dirs : list (Z * Z)) (p : cell)
  : M (list (Z * Z)) :=
  let rank := c_rank p in
  let file := c_file p in
  let opponent := opponentOf (c_owner p) in
  parsed <- liftR (mapR parseDir (symmetricalDirs dirs)) ;;
  foldM (fun arr dir =>
           spaces <- getAllSpacesInDir fuel rank file opponent dir ;;
           ret (arr ++ spaces))
        parsed [].

(** ** The rules table *)

(** pawns have weird rules *)
Definition rules_p (p : cell) : M (list (Z * Z)) :=
  let moves := [] in
  let rank := c_rank p in
  let file := c_file p in
  let side := if owner_eqb (c_owner p) (Some White) then -1 else 1 in
  let opponent := opponentOf (c_owner p) in
  (* regular movement *)
  fwd <- movableSpace (rank + side) file opponent ;;
  let moves := if fwd then moves ++ [(rank + side, file)] else moves in
  (* two space movement as first move *)
  first <- (if (side =? 1) && (rank =? 1) then
              occupied <- pieceAt (rank + 1) file ;; ret (negb occupied)
            else ret false) ;;
  moves <- (if first then ret (moves ++ [(rank + 2, file)])
            else
              second <- (if (side =? -1) && (rank =? 6) then
                           occupied <- pieceAt (rank - 1) file ;;
                           ret (negb occupied)
                         else ret false) ;;
              ret (if second then moves ++ [(rank - 2, file)] else moves)) ;;
  (* attack movement including en passant *)
  right <- (owned <- ownedPieceAt (rank + side) (file + 1) opponent ;;
            if owned then ret true else enPassant (rank + side) (file + 1)) ;;
  let moves := if right then moves ++ [(rank + side, file + 1)] else moves in
  left <- (owned <- ownedPieceAt (rank + side) (file - 1) opponent ;;
           if owned then ret true else enPassant (rank + side) (file - 1)) ;;
  let moves := if left then moves ++ [(rank + side, file - 1)] else moves in
  ret moves.

(** functions that take a piece and return possible moves for that piece;
    [rules[letter]] is [undefined] for a letter that is not a key. *)
Definition rules (fuel : nat) (l : letter)
  : option (cell -> M (list (Z * Z))) :=
  match l with
  | Lp => Some rules_p
  | Ln => Some (leaper [(2, 1); (1, 2)])
  | Lr => Some (rider fuel [(1, 0); (0, 1)])
  | Lb => Some (rider fuel [(1, 1)])
  | Lq => Some (rider fuel [(1, 0); (0, 1); (1, 1)])
  | Lk => Some (leaper [(1, 0); (0, 1); (1, 1)])
  | Lx => None
  end.

(** finds all possible moves for the specified piece on the board *)
Definition getOptionsForPiece (fuel : nat) (pc : cell) : M (list move) :=
  match rules fuel (c_p pc) with
  | None => throw TypeError
  | Some rule =>
      movesForPiece <- rule pc ;;
      ret (map (fun mv => mkMove (c_p pc) (c_rank pc) (c_file pc)
                                 (fst mv) (snd mv) false)
               movesForPiece)
  end.

(** [state.castling[player]] *)
Definition castlingOf (player : player) : M rights :=
  tbl <- gets st_castling ;;
  ret (match player with White => cast_w tbl | Black => cast_b tbl end).

(** get castling moves for player *)
Definition getCastlingOptions (player : player) : M (list move) :=
  let moves := [] in
  castling <- castlingOf player ;;
  let rank := if player_eqb player White then 7 else 0 in
  (* check that castling is still available (implies pieces involved
     haven't been moved yet) and that the spaces in between are empty *)
  kingside <- (if r_k castling then
                 p5 <- pieceAt rank 5 ;;
                 if negb p5 then p6 <- pieceAt rank 6 ;; ret (negb p6)
                 else ret false
               else ret false) ;;
  let moves :=
    if kingside then
      moves ++ [mkMove Lk rank 4 rank 6 true; mkMove Lr rank 7 rank 5 true]
    else moves in
  queenside <- (if r_q castling then
                  p1 <- pieceAt rank 1 ;;
                  if negb p1 then
                    p2 <- pieceAt rank 2 ;;
                    if negb p2 then p3 <- pieceAt rank 3 ;; ret (negb p3)
                    else ret false
                  else ret false
                else ret false) ;;
  let moves :=
    if queenside then
      moves ++ [mkMove Lk rank 4 rank 2 true; mkMove Lr rank 0 rank 3 true]
    else moves in
  ret moves.

(** finds all possible moves for the specified player *)
Definition getOptionsForPlayer (fuel : nat) (player : player) : M (list move) :=
  board <- gets st_board ;;
  (* flattened piece list for player *)
  let playersPieces :=
    fold_left
      (fun pre row =>
         pre ++ filter (fun col => owner_eqb (c_owner col) (Some player)) row)
      board [] in
  (* concat together available moves for each piece *)
  options <- foldM (fun pre pc =>
                      opts <- getOptionsForPiece fuel pc ;; ret (pre ++ opts))
                   playersPieces [] ;;
  castles <- getCastlingOptions player ;;
  ret (options ++ castles).

(** ** Reading a position (FEN) *)

(** converts string notation "file rank" to integer indices (rank, file)
    (0-based, flipped vertically) *)
Definition notationToRankFile (note : string) : option (Z * Z) :=
  match note with
  | String c0 (String c1 _) =>
      match parseInt (String c1 EmptyString) with
      | Some d => Some (8 - d, Z.of_nat (nat_of_ascii c0) - 97)
      | None => None
      end
  | _ => None
  end.

(** [row.replace(/\d/g, digit => 'x'.repeat(parseInt(digit)))] *)
Fixpoint expandDigits (row : string) : string :=
  match row with
  | EmptyString => EmptyString
  | String c rest =>
      match digitVal c with
      | Some d =>
          (String.concat "" (repeat "x"%string (Z.to_nat d))
             ++ expandDigits rest)%string
      | None => String c (expandDigits rest)
      end
  end.

(** One cell of the board: uppercase letters are white, lowercase are
    black, the letter is normalised to lower case.  The characters read
    are those of the format, the twelve piece letters and ['x']; any other
    character (for which the program stores an owned cell whose letter has
    no rule) is outside the model: [None]. *)
Definition importCell (rank file : Z) (c : ascii) : option cell :=
  let mk l o := Some (mkCell l rank file o) in
  match c with
  | "x"%char => mk Lx None
  | "p"%char => mk Lp (Some Black) | "P"%char => mk Lp (Some White)
  | "n"%char => mk Ln (Some Black) | "N"%char => mk Ln (Some White)
  | "b"%char => mk Lb (Some Black) | "B"%char => mk Lb (Some White)
  | "r"%char => mk Lr (Some Black) | "R"%char => mk Lr (Some White)
  | "q"%char => mk Lq (Some Black) | "Q"%char => mk Lq (Some White)
  | "k"%char => mk Lk (Some Black) | "K"%char => mk Lk (Some White)
  | _ => None
  end.

Fixpoint importCols (rank file : Z) (cols : string) : option (list cell) :=
  match cols with
  | EmptyString => Some []
  | String c rest =>
      match importCell rank file c, importCols rank (file + 1) rest with
      | Some x, Some xs => Some (x :: xs)
      | _, _ => None
      end
  end.

Fixpoint importRows (rank : Z) (rows : list string) : option (list (list cell)) :=
  match rows with
  | [] => Some []
  | row :: rest =>
      match importCols rank 0 (expandDigits row), importRows (rank + 1) rest with
      | Some x, Some xs => Some (x :: xs)
      | _, _ => None
      end
  end.

(** castling availability: the letters of the third field switch the
    flags on; ["-"] leaves them all off. *)
Fixpoint importCastling (available : string) (tbl : castlingTable)
  : castlingTable :=
  match available with
  | EmptyString => tbl
  | String a rest =>
      let w := cast_w tbl in
      let b := cast_b tbl in
      importCastling rest
        match a with
        | "K"%char => mkCastling (mkRights true (r_q w)) b
        | "Q"%char => mkCastling (mkRights (r_k w) true) b
        | "k"%char => mkCastling w (mkRights true (r_q b))
        | "q"%char => mkCastling w (mkRights (r_k b) true)
        | _ => tbl
        end
  end.

(** reads FEN file format, assumes file has valid formatting; [None] on a
    text outside the model: fewer than four fields, a placement character
    [importCell] does not read, a side to move other than ["w"] and ["b"],
    or an en-passant field, other than ["-"], whose second character is
    not a digit.  [fenFormat] below describes texts that are read. *)
Definition importFile (text : string) : option state :=
  match split " " text with
  | placement :: turn :: avail :: ep :: _ =>
      match importRows 0 (split "/" placement) with
      | None => None
      | Some board =>
          let noCastling :=
            mkCastling (mkRights false false) (mkRights false false) in
          let castling :=
            if String.eqb avail "-" then noCastling
            else importCastling avail noCastling in
          let mkSt t e := Some (mkState board t castling e) in
          let withEp t :=
            if String.eqb ep "-" then mkSt t None
            else match notationToRankFile ep with
                 | Some rf => mkSt t (Some rf)
                 | None => None
                 end in
          if String.eqb turn "w" then withEp White
          else if String.eqb turn "b" then withEp Black
          else None
      end
  | _ => None
  end.

(** ** Printing moves and the summary *)

(** [String.fromCharCode(code)] for a code of the ASCII range; [None]
    stands for a character the byte strings of the model do not hold. *)
Definition fromCharCode (code : Z) : option ascii :=
  if (0 <=? code) && (code <? 128) then Some (ascii_of_nat (Z.to_nat code))
  else None.

(** [pieceNames[piece]]; [undefined] for a letter that is not a key. *)
Definition pieceNames (l : letter) : option string :=
  match l with
  | Lp => Some "Pawn"%string
  | Ln => Some "Knight"%string
  | Lr => Some "Rook"%string
  | Lb => Some "Bishop"%string
  | Lq => Some "Queen"%string
  | Lk => Some "King"%string
  | Lx => None
  end.

(** 0->A, 7->H *)
Definition rankFormat (rank : Z) : option ascii := fromCharCode (rank + 65).

(** takes output of getOptionsForPiece and returns string formatted like
    "Pawn at <A:2> can move to <A:3>" *)
Definition formatMove (mv : move) : option string :=
  match rankFormat (fromFile mv), rankFormat (toFile mv) with
  | Some ff, Some tf =>
      let name :=
        match pieceNames (piece mv) with
        | Some n => n
        | None => "undefined"%string
        end in
      let text :=
        (name ++ " at <" ++ String ff ":" ++ numToString (Int (8 - fromRank mv))
           ++ "> can move to <" ++ String tf ":"
           ++ numToString (Int (8 - toRank mv)) ++ ">")%string in
      Some (if castle mv then (text ++ " (as castling move)")%string else text)
  | _, _ => None
  end.

(** The piece letter as the one-character string a move record holds. *)
Definition letterString (l : letter) : string :=
  match l with
  | Lp => "p" | Ln => "n" | Lb => "b" | Lr => "r" | Lq => "q" | Lk => "k"
  | Lx => "x"
  end%string.

(** [move.piece+move.fromRank+move.fromFile] *)
Definition moveKey (mv : move) : string :=
  (letterString (piece mv) ++ numToString (Int (fromRank mv))
     ++ numToString (Int (fromFile mv)))%string.

(** The number of keys of the object in which every move sets the
    property named by its key. *)
Definition uniquePieceCount (moveOptions : list move) : nat :=
  List.length (fold_left (fun pre mv => setAdd pre (moveKey mv)) moveOptions []).

(** The summary line. *)
Definition summary (st : state) (moveOptions : list move) : string :=
  let playerName :=
    (if player_eqb (st_playerTurn st) White then "white" else "black")%string in
  (numToString (Int (Z.of_nat (List.length moveOptions)))
     ++ " legal moves ("
     ++ numToString (Int (Z.of_nat (uniquePieceCount moveOptions)))
     ++ " unique pieces) for " ++ playerName ++ " player")%string.

Fixpoint mapO {A B} (f : A -> option B) (l : list A) : option (list B) :=
  match l with
  | [] => Some []
  | x :: xs =>
      match f x, mapO f xs with
      | Some y, Some ys => Some (y :: ys)
      | _, _ => None
      end
  end.

(** The driver at the end of [chessmaster3000.js] on the text of its
    input file: the lines it prints, one per move and then the summary.
    [None] when the text or a printed character is outside the model. *)
Definition run (fuel : nat) (text : string) : option (result (list string)) :=
  match importFile text with
  | None => None
  | Some gameState =>
      match fst (getOptionsForPlayer fuel (st_playerTurn gameState) gameState) with
      | Err e => Some (Err e)
      | Ok moveOptions =>
          match mapO formatMove moveOptions with
          | None => None
          | Some lines => Some (Ok (lines ++ [summary gameState moveOptions]))
          end
      end
  end.

(** ** Views of a position used to state the properties *)

(** The cell stored at [(rank, file)], if the board has one there. *)
Definition cellAt (st : state) (rank file : Z) : option cell :=
  match index (st_board st) rank with
  | Some row => index row file
  | None => None
  end.

(** The owner of the piece standing on [(rank, file)]; [None] on an empty
    space and off the board. *)
Definition ownerOn (st : state) (rank file : Z) : option player :=
  match cellAt st rank file with
  | Some c => c_owner c
  | None => None
  end.

(** The square holds a piece. *)
Definition occupied (st : state) (rank file : Z) : bool :=
  match ownerOn st rank file with Some _ => true | None => false end.

(** The board is an 8 by 8 grid. *)
Definition grid8 (st : state) : Prop :=
  List.length (st_board st) = 8%nat /\
  Forall (fun row => List.length row = 8%nat) (st_board st).

Definition grid8b (st : state) : bool :=
  (List.length (st_board st) =? 8)%nat
  && forallb (fun row => (List.length row =? 8)%nat) (st_board st).

(** Every owned cell carries a piece letter, as in the boards [importFile]
    builds. *)
Definition piecesLettered (st : state) : Prop :=
  Forall (Forall (fun c => c_owner c <> None -> c_p c <> Lx)) (st_board st).

Definition piecesLetteredb (st : state) : bool :=
  forallb (forallb (fun c => owner_eqb (c_owner c) None
                             || negb (letter_eqb (c_p c) Lx)))
          (st_board st).

(** The en-passant target, when there is one, is a square of the board. *)
Definition epOnBoard (st : state) : Prop :=
  match st_enPassant st with
  | Some (r, f) => onBoard r f = true
  | None => True
  end.

(** The squares a rule returns are all on the board. *)
Definition allOnBoard (l : list (Z * Z)) : Prop :=
  Forall (fun sq => onBoard (fst sq) (snd sq) = true) l.

(** A computation that hands the position back as it received it. *)
Definition readonly {A} (m : M A) : Prop := forall s, snd (m s) = s.

(** The player owns no cell of the board. *)
Definition ownsNothing (st : state) (pl : player) : Prop :=
  Forall (Forall (fun c => owner_eqb (c_owner c) (Some pl) = false))
         (st_board st).

(** The [k]-th square of the ray leaving [(rank, file)] in direction [dir]. *)
Definition rayAt (rank file : Z) (dir : Z * Z) (k : Z) : Z * Z :=
  (rank + k * fst dir, file + k * snd dir).

(** *** Vocabulary of the pawn rule *)

(** The direction a pawn advances in: towards rank 0 for White. *)
Definition forward (p : cell) : Z :=
  if owner_eqb (c_owner p) (Some White) then -1 else 1.

(** The rank a side's pawns start on. *)
Definition startRank (p : cell) : Z :=
  if owner_eqb (c_owner p) (Some White) then 6 else 1.

(** The test guarding the single push. *)
Definition canPush (st : state) (p : cell) : bool :=
  let r := c_rank p + forward p in
  onBoard r (c_file p)
  && (negb (occupied st r (c_file p))
      || negb (owner_eqb (ownerOn st r (c_file p)) (opponentOf (c_owner p)))).

(** The test guarding the double push. *)
Definition canDouble (st : state) (p : cell) : bool :=
  (c_rank p =? startRank p)
  && negb (occupied st (c_rank p + forward p) (c_file p)).

(** The square is the en-passant target of the position. *)
Definition isTarget (st : state) (rank file : Z) : bool :=
  match st_enPassant st with
  | Some (r, f) => (r =? rank) && (f =? file)
  | None => false
  end.

(** The test guarding the capture towards file [c_file p + d]. *)
Definition canCapture (st : state) (p : cell) (d : Z) : bool :=
  let r := c_rank p + forward p in
  (onBoard r (c_file p + d)
   && owner_eqb (ownerOn st r (c_file p + d)) (opponentOf (c_owner p)))
  || isTarget st r (c_file p + d).

(** The list the pawn rule builds, in the order it pushes. *)
Definition pawnMoves (st : state) (p : cell) : list (Z * Z) :=
  let r := c_rank p + forward p in
  (if canPush st p then [(r, c_file p)] else [])
  ++ (if canDouble st p then [(c_rank p + 2 * forward p, c_file p)] else [])
  ++ (if canCapture st p 1 then [(r, c_file p + 1)] else [])
  ++ (if canCapture st p (-1) then [(r, c_file p - 1)] else []).


(** *** Positions used as examples *)

(** The standard starting position. *)
Definition fenStart : string :=
  "rnbqkbnr/pppppppp/8/8/8/8/PPPPPPPP/RNBQKBNR w KQkq - 0 1".

(** A white pawn on e2 with a white knight standing right in front of it
    (kings on e1 and e8). *)
Definition fenOwnBlocker : string := "4k3/8/8/8/8/4N3/4P3/4K3 w - - 0 1".

(** A white pawn on e2, e3 empty, a black pawn on e4 (kings on e1 and e8). *)
Definition fenBlockedDouble : string := "4k3/8/8/8/4p3/8/4P3/4K3 w - - 0 1".

(** An empty board on which White still has the kingside castling right. *)
Definition fenNoPieces : string := "8/8/8/8/8/8/8/8 w K - 0 1".

(** Black pawn on d4 beside a white pawn that just played e2-e4. *)
Definition fenEnPassant : string := "8/8/8/8/3pP3/8/8/8 b - e3 0 1".

(** An empty board whose en-passant field names no square of the board:
    [notationToRankFile] reads ["i9"] as [(-1, 8)]. *)
Definition fenTargetOffBoard : string := "8/8/8/8/8/8/8/8 w - i9 0 1".

(** The position with its en-passant target removed. *)
Definition clearEnPassant (st : state) : state :=
  mkState (st_board st) (st_playerTurn st) (st_castling st) None.


(** *** Vocabulary of the leaper and rider rules *)

(** The directions the set of mirrored strings of a piece decodes to, in
    the order the set yields them. *)
Definition mirroredDirs (l : letter) : list (Z * Z) :=
  match l with
  | Ln => [(2, 1); (-2, 1); (2, -1); (-2, -1); (1, 2); (-1, 2); (1, -2); (-1, -2)]
  | Lk | Lq =>
      [(1, 0); (-1, 0); (0, 1); (0, -1); (1, 1); (-1, 1); (1, -1); (-1, -1)]
  | Lr => [(1, 0); (-1, 0); (0, 1); (0, -1)]
  | Lb => [(1, 1); (-1, 1); (1, -1); (-1, -1)]
  | Lp | Lx => []
  end.

(** The base directions the rules table gives a piece. *)
Definition baseDirs (l : letter) : list (Z * Z) :=
  match l with
  | Ln => [(2, 1); (1, 2)]
  | Lr => [(1, 0); (0, 1)]
  | Lb => [(1, 1)]
  | Lq | Lk => [(1, 0); (0, 1); (1, 1)]
  | Lp | Lx => []
  end.

(** The square a direction leads to from the piece. *)
Definition target (p : cell) (dir : Z * Z) : Z * Z :=
  (c_rank p + fst dir, c_file p + snd dir).

(** The position a FEN text describes (an empty position when the text is
    outside the format). *)
Definition position (fen : string) : state :=
  match importFile fen with
  | Some st => st
  | None =>
      mkState [] White
        (mkCastling (mkRights false false) (mkRights false false)) None
  end.


(** The loop of the rider goes on at this square: it is on the board and
    empty. *)
Definition clearSq (st : state) (pos : Z * Z) : bool :=
  onBoard (fst pos) (snd pos) && negb (occupied st (fst pos) (snd pos)).

(** The first [n] squares of the ray leaving [(rank, file)] in direction
    [dir]. *)
Definition raySquares (rank file : Z) (dir : Z * Z) (n : nat) : list (Z * Z) :=
  map (fun i => rayAt rank file dir (Z.of_nat i)) (seq 1 n).

(** What the rider returns along one ray of piece [p]: with [n] the number
    of empty on-board squares before the first square that is off the board
    or occupied (the stop square),
    - the returned squares are those [n] squares, in order, followed by the
      stop square exactly when it is on the board and held by the opponent;
    - nothing beyond the stop square is returned;
    - no returned square is held by the piece's own side. *)
Definition RaySpec (st : state) (p : cell) (dir : Z * Z) (ray : list (Z * Z))
  : Prop :=
  exists n : nat,
    let sq k := rayAt (c_rank p) (c_file p) dir k in
    let stop := sq (Z.of_nat (S n)) in
    (forall i, (1 <= i <= n)%nat ->
       onBoard (fst (sq (Z.of_nat i))) (snd (sq (Z.of_nat i))) = true /\
       occupied st (fst (sq (Z.of_nat i))) (snd (sq (Z.of_nat i))) = false) /\
    (onBoard (fst stop) (snd stop) = false \/
     occupied st (fst stop) (snd stop) = true) /\
    ray = raySquares (c_rank p) (c_file p) dir n
          ++ (if onBoard (fst stop) (snd stop)
                 && owner_eqb (ownerOn st (fst stop) (snd stop))
                              (opponentOf (c_owner p))
              then [stop] else []) /\
    (forall k, Z.of_nat (S n) < k -> ~ In (sq k) ray) /\
    (forall s o, In s ray -> c_owner p = Some o ->
       ownerOn st (fst s) (snd s) <> Some o).


(** *** Vocabulary of the castling rule and of the aggregator *)

(** The rank a side castles on: 7 for White, 0 for Black. *)
Definition homeRank (pl : player) : Z := if player_eqb pl White then 7 else 0.

(** The castling rights of a side in a position. *)
Definition rightsOf (st : state) (pl : player) : rights :=
  match pl with White => cast_w (st_castling st) | Black => cast_b (st_castling st) end.

(** The test guarding the kingside castle. *)
Definition kingsideOk (st : state) (pl : player) : bool :=
  r_k (rightsOf st pl)
  && negb (occupied st (homeRank pl) 5) && negb (occupied st (homeRank pl) 6).

(** The test guarding the queenside castle. *)
Definition queensideOk (st : state) (pl : player) : bool :=
  r_q (rightsOf st pl)
  && negb (occupied st (homeRank pl) 1) && negb (occupied st (homeRank pl) 2)
  && negb (occupied st (homeRank pl) 3).

(** The two records of the kingside castle: king, then rook. *)
Definition kingsideMoves (pl : player) : list move :=
  [mkMove Lk (homeRank pl) 4 (homeRank pl) 6 true;
   mkMove Lr (homeRank pl) 7 (homeRank pl) 5 true].

(** The two records of the queenside castle: king, then rook. *)
Definition queensideMoves (pl : player) : list move :=
  [mkMove Lk (homeRank pl) 4 (homeRank pl) 2 true;
   mkMove Lr (homeRank pl) 0 (homeRank pl) 3 true].

(** The list the castling rule builds. *)
Definition castlingMoves (st : state) (pl : player) : list move :=
  (if kingsideOk st pl then kingsideMoves pl else [])
  ++ (if queensideOk st pl then queensideMoves pl else []).

(** The cells of the board a player owns, row by row. *)
Definition piecesOf (st : state) (pl : player) : list cell :=
  flat_map (filter (fun col => owner_eqb (c_owner col) (Some pl))) (st_board st).

(** The 20 moves of the starting position, in the order the aggregator
    lists them: for the pawn of each file the single then the double push,
    then two moves for each knight. *)
Definition startMoves : list move :=
  flat_map (fun f => [mkMove Lp 6 f 5 f false; mkMove Lp 6 f 4 f false])
           [0; 1; 2; 3; 4; 5; 6; 7]
  ++ [mkMove Ln 7 1 5 2 false; mkMove Ln 7 1 5 0 false;
      mkMove Ln 7 6 5 7 false; mkMove Ln 7 6 5 5 false].


(** Two calls of the aggregator, one after the other, on the position the
    first call leaves behind. *)
Definition callTwice (fuel : nat) (pl : player) : M (list move * list move) :=
  a <- getOptionsForPlayer fuel pl ;;
  b <- getOptionsForPlayer fuel pl ;;
  ret (a, b).

(** A lone white queen on d5. *)
Definition fenQueen : string := "8/8/8/3Q4/8/8/8/8 w - - 0 1".

(** Kings and rooks on their home squares, all rights, nothing between. *)
Definition fenCastle : string := "r3k2r/8/8/8/8/8/8/R3K2R w KQkq - 0 1".


(** The outcome of two calls that both had outcome [r]. *)
Definition both {A} (r : result A) : result (A * A) :=
  match r with
  | Ok l => Ok (l, l)
  | Err e => Err e
  end.


(** *** Vocabulary of the decimal strings *)

(** The integer a [num] stands for: negative zero is zero. *)
Definition numVal (n : num) : Z :=
  match n with
  | Int z => z
  | NegZero => 0
  end.

(** The value of a sequence of decimal digits read after the value [acc]. *)
Fixpoint horner (d : Decimal.uint) (acc : Z) : Z :=
  match d with
  | Decimal.Nil => acc
  | Decimal.D0 l => horner l (10 * acc + 0)
  | Decimal.D1 l => horner l (10 * acc + 1)
  | Decimal.D2 l => horner l (10 * acc + 2)
  | Decimal.D3 l => horner l (10 * acc + 3)
  | Decimal.D4 l => horner l (10 * acc + 4)
  | Decimal.D5 l => horner l (10 * acc + 5)
  | Decimal.D6 l => horner l (10 * acc + 6)
  | Decimal.D7 l => horner l (10 * acc + 7)
  | Decimal.D8 l => horner l (10 * acc + 8)
  | Decimal.D9 l => horner l (10 * acc + 9)
  end.

(** The integers a JavaScript number holds exactly
    ([Number.isSafeInteger]): on them [x * -1] and [parseInt] are exact and
    [toString] prints plain decimal digits, as the numbers of the model
    do. *)
Definition safeInteger (z : Z) : Prop := Z.abs z <= 9007199254740991.

(** A table of base directions with safe integer entries. *)
Definition safeTable (dirs : list (Z * Z)) : Prop :=
  Forall (fun d => safeInteger (fst d) /\ safeInteger (snd d)) dirs.

(** The character does not occur in the string. *)
Fixpoint lacks (c : ascii) (s : string) : bool :=
  match s with
  | EmptyString => true
  | String a rest => negb (Ascii.eqb a c) && lacks c rest
  end.

(** The four mirror images of a direction, in the order the rules add
    them to the set. *)
Definition mirrors (dir : Z * Z) : list (Z * Z) :=
  [(fst dir, snd dir); (- fst dir, snd dir);
   (fst dir, - snd dir); (- fst dir, - snd dir)].


(** The string [toString] gives a direction with integer entries. *)
Definition dirString (d : Z * Z) : string :=
  arrayToString [Int (fst d); Int (snd d)].

(** Adding a direction to a duplicate-free list of directions, at the end. *)
Definition addDir (acc : list (Z * Z)) (d : Z * Z) : list (Z * Z) :=
  if existsb (sq_eqb d) acc then acc else acc ++ [d].


(** A direction one step long: a rook, bishop or queen direction. *)
Definition unitDir (d : Z * Z) : Prop :=
  d <> (0, 0) /\ -1 <= fst d <= 1 /\ -1 <= snd d <= 1.

(** The 64 squares of the board. *)
Definition allSquares : list (Z * Z) :=
  list_prod [0; 1; 2; 3; 4; 5; 6; 7] [0; 1; 2; 3; 4; 5; 6; 7].

(** The square lies 1 to 7 steps from [(rank, file)] along one of the
    directions. *)
Definition onLine (dirs : list (Z * Z)) (rank file : Z) (s : Z * Z) : bool :=
  existsb (fun d =>
             existsb (fun k => sq_eqb s (rayAt rank file d k))
                     [1; 2; 3; 4; 5; 6; 7])
          dirs.

(** The squares of the board on the lines through [(rank, file)]. *)
Definition reach (dirs : list (Z * Z)) (rank file : Z) : list (Z * Z) :=
  filter (onLine dirs rank file) allSquares.

(** The most squares a rook, bishop or queen can reach on an empty board. *)
Definition maxReach (l : letter) : nat :=
  match l with
  | Lr => 14
  | Lb => 13
  | Lq => 27
  | _ => 0
  end.


(** *** Vocabulary of the input format *)

(** Every cell of the board records the rank and file it stands on. *)
Definition cellsIndexed (st : state) : Prop :=
  forall rank file c,
    cellAt st rank file = Some c -> c_rank c = rank /\ c_file c = file.

(** The number of cells a row of the placement field describes: a digit
    counts for that many empty cells, any other character for one. *)
Fixpoint fenWidth (row : string) : nat :=
  match row with
  | EmptyString => 0
  | String c rest =>
      match digitVal c with
      | Some d => Z.to_nat d + fenWidth rest
      | None => S (fenWidth rest)
      end
  end.

(** The origin of a move: the piece letter and the square it leaves. *)
Definition originOf (mv : move) : letter * (Z * Z) :=
  (piece mv, (fromRank mv, fromFile mv)).


(** The algebraic name of a square: file letter ['a'..'h'], then rank
    digit ['8'..'1'] from the top row down. *)
Definition squareNote (rank file : Z) : string :=
  String (ascii_of_nat (Z.to_nat (file + 97)))
    (String (ascii_of_nat (Z.to_nat (8 - rank + 48))) EmptyString).



(** *** Vocabulary of the move list *)

(** The record [getOptionsForPiece] builds for a destination of a piece. *)
Definition moveOf (pc : cell) (s : Z * Z) : move :=
  mkMove (c_p pc) (c_rank pc) (c_file pc) (fst s) (snd s) false.

(** The invariants of a position the program reads from a well-formed
    text: an 8 by 8 board whose cells record their coordinates and carry a
    piece letter when owned, and an en-passant target on the board. *)
Definition wellFormed (st : state) : Prop :=
  grid8 st /\ piecesLettered st /\ cellsIndexed st /\ epOnBoard st.

(** The square a cell says it stands on. *)
Definition coordOf (c : cell) : Z * Z := (c_rank c, c_file c).

(** What the moves of one piece of player [pl] look like: one record per
    destination, the destinations pairwise distinct and on the board, and
    for a piece other than a pawn never a square held by [pl]. *)
Definition pieceMoves (st : state) (pl : player) (pc : cell)
    (opts : list move) : Prop :=
  exists dests,
    opts = map (moveOf pc) dests /\
    NoDup dests /\
    allOnBoard dests /\
    (c_p pc <> Lp ->
     forall s, In s dests -> ownerOn st (fst s) (snd s) <> Some pl).


(** The key of the origin of a move, as the summary builds it. *)
Definition keyOfOrigin (o : letter * (Z * Z)) : string :=
  (letterString (fst o) ++ numToString (Int (fst (snd o)))
     ++ numToString (Int (snd (snd o))))%string.

(** The origin is a square of the board. *)
Definition originOnBoard (o : letter * (Z * Z)) : Prop :=
  onBoard (fst (snd o)) (snd (snd o)) = true.


(** The jump of a knight (an L: one step one way, two the other) and the
    step of a king (to an adjacent square), as rank and file differences. *)
Definition jumpOf (l : letter) (dr df : Z) : Prop :=
  match l with
  | Ln => Z.abs dr * Z.abs df = 2
  | Lk => Z.max (Z.abs dr) (Z.abs df) = 1
  | _ => False
  end.


(** *** Vocabulary of the FEN format *)

(** Every character of the string passes the test. *)
Fixpoint allChars (ok : ascii -> bool) (s : string) : bool :=
  match s with
  | EmptyString => true
  | String c rest => ok c && allChars ok rest
  end.

(** The characters that stand for one cell: the twelve piece letters, and
    ['x'] for an empty cell. *)
Definition cellChar (c : ascii) : bool :=
  existsb (Ascii.eqb c) (list_ascii_of_string "pnbrqkPNBRQKx").

(** The characters of a row of the placement field: a cell character, or
    a digit counting empty cells. *)
Definition rowChar (c : ascii) : bool :=
  cellChar c || match digitVal c with Some _ => true | None => false end.

(** The characters of the placement field: those of a row, and the row
    separator. *)
Definition placementChar (c : ascii) : bool :=
  rowChar c || Ascii.eqb c "/".

(** The string is the algebraic name of a square of the board. *)
Definition squareName (s : string) : bool :=
  existsb (fun sq => String.eqb s (squareNote (fst sq) (snd sq))) allSquares.

(** The text has the four fields the program reads, written as the format
    has them: a placement field of piece letters, digits and ['/'], the
    side to move ["w"] or ["b"], any castling field, and an en-passant
    field that is ["-"] or the name of a square. *)
Definition fenFormat (text : string) : bool :=
  match split " " text with
  | placement :: turn :: avail :: ep :: _ =>
      allChars placementChar placement
      && (String.eqb turn "w" || String.eqb turn "b")
      && (String.eqb ep "-" || squareName ep)
  | _ => false
  end.

(** The placement field of the text describes 8 rows of 8 cells. *)
Definition fenBoard8 (text : string) : bool :=
  match split " " text with
  | placement :: _ =>
      (List.length (split "/" placement) =? 8)%nat
      && forallb (fun row => (fenWidth row =? 8)%nat) (split "/" placement)
  | [] => false
  end.

(** * Properties *)

(** ** The monad *)

Section MonadFacts.
Context {A B : Type}.

Lemma bind_ok (m : M A) (k : A -> M B) (s s' : state) (a : A) :
  m s = (Ok a, s') -> bind m k s = k a s'.
Proof. intros H. unfold bind. now rewrite H. Qed.

Lemma readonly_ret (a : A) : readonly (ret a).
Proof. intros s. reflexivity. Qed.

Lemma readonly_throw (e : error) : readonly (@throw A e).
Proof. intros s. reflexivity. Qed.

Lemma readonly_gets (f : state -> A) : readonly (gets f).
Proof. intros s. reflexivity. Qed.

Lemma readonly_liftR (r : result A) : readonly (liftR r).
Proof. intros s. reflexivity. Qed.

Lemma readonly_bind (m : M A) (k : A -> M B) :
  readonly m -> (forall a, readonly (k a)) -> readonly (bind m k).
Proof.
  intros Hm Hk s. unfold bind.
  specialize (Hm s). destruct (m s) as [[a | e] s']; simpl in Hm; subst s'.
  - apply Hk.
  - reflexivity.
Qed.

Lemma readonly_run (m : M A) (s : state) :
  readonly m -> m s = (fst (m s), s).
Proof. intros H. specialize (H s). destruct (m s); simpl in *; now subst. Qed.
End MonadFacts.

Lemma readonly_filterM {A} (f : A -> M bool) (l : list A) :
  (forall x, readonly (f x)) -> readonly (filterM f l).
Proof.
  intros Hf. induction l as [| x xs IH]; simpl.
  - apply readonly_ret.
  - apply readonly_bind; [apply Hf | intros keep].
    apply readonly_bind; [exact IH | intros rest; apply readonly_ret].
Qed.

Lemma readonly_foldM {A B} (f : B -> A -> M B) (l : list A) (init : B) :
  (forall acc x, readonly (f acc x)) -> readonly (foldM f l init).
Proof.
  intros Hf. revert init. induction l as [| x xs IH]; intros init; simpl.
  - apply readonly_ret.
  - apply readonly_bind; [apply Hf | intros acc; apply IH].
Qed.

(** A filter whose callback always answers is the list filter. *)
Lemma filterM_run {A} (f : A -> M bool) (g : A -> bool) (l : list A) (s : state) :
  (forall x, In x l -> f x s = (Ok (g x), s)) ->
  filterM f l s = (Ok (filter g l), s).
Proof.
  induction l as [| x xs IH]; intros Hf; simpl.
  - reflexivity.
  - rewrite (bind_ok _ _ _ _ _ (Hf x (or_introl eq_refl))).
    rewrite (bind_ok _ _ _ _ _ (IH (fun y Hy => Hf y (or_intror Hy)))).
    unfold ret. now destruct (g x).
Qed.

(** ** Board access *)

Lemma index_Some {A} (l : list A) (i : Z) :
  0 <= i < Z.of_nat (List.length l) -> exists x, index l i = Some x.
Proof.
  intros [H0 H1]. unfold index.
  destruct (Z.ltb_spec i 0) as [? | _]; [lia |].
  destruct (nth_error l (Z.to_nat i)) as [x |] eqn:E; [now exists x |].
  apply nth_error_None in E. lia.
Qed.

Lemma onBoard_spec (rank file : Z) :
  onBoard rank file = true <-> 0 <= rank <= 7 /\ 0 <= file <= 7.
Proof. unfold onBoard. rewrite !andb_true_iff. lia. Qed.

Lemma onBoard_false (rank file : Z) :
  onBoard rank file = false <-> ~ (0 <= rank <= 7 /\ 0 <= file <= 7).
Proof.
  rewrite <- onBoard_spec. destruct (onBoard rank file); split; intros; easy.
Qed.

Lemma grid8b_spec (st : state) : grid8b st = true -> grid8 st.
Proof.
  unfold grid8b, grid8. rewrite andb_true_iff, forallb_forall, Forall_forall.
  intros [Hl Hr]. split.
  - now apply Nat.eqb_eq.
  - intros row Hin. apply Nat.eqb_eq. now apply Hr.
Qed.

Lemma grid8_cellAt (st : state) (rank file : Z) :
  grid8 st -> onBoard rank file = true -> exists c, cellAt st rank file = Some c.
Proof.
  intros [Hl Hr] Hon. apply onBoard_spec in Hon. unfold cellAt.
  destruct (index_Some (st_board st) rank) as [row Erow]; [lia |].
  rewrite Erow.
  assert (Hin : In row (st_board st)).
  { unfold index in Erow. destruct (rank <? 0); [discriminate |].
    eapply nth_error_In; eauto. }
  rewrite Forall_forall in Hr. specialize (Hr row Hin).
  apply index_Some. lia.
Qed.

Lemma boardOwner_run (st : state) (rank file : Z) :
  grid8 st -> onBoard rank file = true ->
  boardOwner rank file st = (Ok (ownerOn st rank file), st).
Proof.
  intros Hg Hon. destruct (grid8_cellAt st rank file Hg Hon) as [c Hc].
  unfold boardOwner, ownerOn, bind, gets. unfold cellAt in *.
  destruct (index (st_board st) rank) as [row |]; [| discriminate].
  now rewrite Hc.
Qed.

Lemma ownerOn_offBoard (st : state) (rank file : Z) :
  grid8 st -> onBoard rank file = false -> ownerOn st rank file = None.
Proof.
  intros [Hl Hr] Hoff. apply onBoard_false in Hoff.
  unfold ownerOn, cellAt, index.
  destruct (Z.ltb_spec rank 0); [reflexivity |].
  destruct (nth_error (st_board st) (Z.to_nat rank)) as [row |] eqn:Erow;
    [| reflexivity].
  assert (Hlt : (Z.to_nat rank < 8)%nat).
  { rewrite <- Hl. apply nth_error_Some. now rewrite Erow. }
  destruct (Z.ltb_spec file 0); [reflexivity |].
  destruct (nth_error row (Z.to_nat file)) as [c |] eqn:Ec; [| reflexivity].
  assert (Hlt' : (Z.to_nat file < 8)%nat).
  { rewrite Forall_forall in Hr.
    rewrite <- (Hr row (nth_error_In _ _ Erow)).
    apply nth_error_Some. now rewrite Ec. }
  lia.
Qed.

Lemma occupied_offBoard (st : state) (rank file : Z) :
  grid8 st -> onBoard rank file = false -> occupied st rank file = false.
Proof. intros Hg Hoff. unfold occupied. now rewrite ownerOn_offBoard. Qed.

Lemma owner_eqb_None (o : option player) :
  negb (owner_eqb o None) = match o with Some _ => true | None => false end.
Proof. now destruct o. Qed.

Lemma owner_eqb_eq (a b : option player) : owner_eqb a b = true <-> a = b.
Proof. destruct a as [[|]|], b as [[|]|]; simpl; split; congruence. Qed.

(** ** What the geometry predicates compute on a well-formed position *)

Lemma pieceAt_run (st : state) (rank file : Z) :
  grid8 st -> pieceAt rank file st = (Ok (occupied st rank file), st).
Proof.
  intros Hg. unfold pieceAt.
  destruct (onBoard rank file) eqn:Hon.
  - rewrite (bind_ok _ _ _ _ _ (boardOwner_run st rank file Hg Hon)).
    unfold ret, occupied. now rewrite owner_eqb_None.
  - unfold ret. now rewrite occupied_offBoard.
Qed.

Lemma ownedPieceAt_run (st : state) (rank file : Z) (pl : option player) :
  grid8 st ->
  ownedPieceAt rank file pl st
  = (Ok (onBoard rank file && owner_eqb (ownerOn st rank file) pl), st).
Proof.
  intros Hg. unfold ownedPieceAt.
  destruct (onBoard rank file) eqn:Hon; [| reflexivity].
  now rewrite (bind_ok _ _ _ _ _ (boardOwner_run st rank file Hg Hon)).
Qed.

Lemma movableSpace_run (st : state) (rank file : Z) (pl : option player) :
  grid8 st ->
  movableSpace rank file pl st
  = (Ok (onBoard rank file
         && (negb (occupied st rank file)
             || negb (owner_eqb (ownerOn st rank file) pl))), st).
Proof.
  intros Hg. unfold movableSpace.
  destruct (onBoard rank file) eqn:Hon; [| reflexivity].
  rewrite (bind_ok _ _ _ _ _ (boardOwner_run st rank file Hg Hon)).
  unfold occupied.
  destruct (ownerOn st rank file) as [o |] eqn:Eo; simpl; [| reflexivity].
  rewrite (bind_ok _ _ _ _ _ (boardOwner_run st rank file Hg Hon)).
  now rewrite Eo.
Qed.

Lemma enPassant_run (st : state) (rank file : Z) :
  enPassant rank file st
  = (Ok (match st_enPassant st with
         | Some (r, f) => (r =? rank) && (f =? file)
         | None => false
         end), st).
Proof.
  unfold enPassant, bind, gets. destruct (st_enPassant st) as [[r f] |]; reflexivity.
Qed.

(** ** The pawn rule *)

Lemma if_run {A} (b : bool) (m1 m2 : M A) (s : state) :
  (if b then m1 else m2) s = if b then m1 s else m2 s.
Proof. now destruct b. Qed.

Ltac run_geometry Hg :=
  unfold bind, ret;
  repeat (rewrite ?if_run;
          rewrite ?(movableSpace_run _ _ _ _ Hg), ?(pieceAt_run _ _ _ Hg),
                  ?(ownedPieceAt_run _ _ _ _ Hg), ?enPassant_run;
          cbv beta iota;
          try match goal with
              | |- context [match (if ?b then _ else _) with _ => _ end] =>
                  destruct b eqn:?
              end).

Ltac split_ifs :=
  repeat match goal with
         | |- context [if ?b then _ else _] => destruct b eqn:?
         end.

Lemma rules_p_run (st : state) (p : cell) :
  grid8 st -> rules_p p st = (Ok (pawnMoves st p), st).
Proof.
  intros Hg.
  unfold rules_p, pawnMoves, canPush, canDouble, canCapture, forward, startRank,
    isTarget, opponentOf.
  destruct (owner_eqb (c_owner p) (Some White)) eqn:Ew;
    unfold Z.sub; cbn [Z.opp Z.mul Pos.mul Z.eqb Pos.eqb andb];
    destruct (c_rank p =? _) eqn:Er; cbn [andb];
    run_geometry Hg; cbn [orb andb negb]; split_ifs; reflexivity.
Qed.

Lemma sq_eqb_eq (a b : Z * Z) : sq_eqb a b = true <-> a = b.
Proof.
  destruct a as [a1 a2], b as [b1 b2]. unfold sq_eqb. simpl.
  rewrite andb_true_iff, !Z.eqb_eq. split; [intros [-> ->] | intros [= -> ->]]; easy.
Qed.

Lemma sq_dec (a b : Z * Z) : {a = b} + {a <> b}.
Proof. decide equality; apply Z.eq_dec. Qed.

Lemma forward_cases (p : cell) : forward p = 1 \/ forward p = -1.
Proof. unfold forward. destruct (owner_eqb _ _); auto. Qed.

Lemma in_if_singleton {A} (b : bool) (x y : A) :
  In y (if b then [x] else []) <-> b = true /\ x = y.
Proof. destruct b; simpl; intuition congruence. Qed.

(** The single-push square is returned exactly when the guard of the
    single push holds: no other branch of the rule produces that square. *)
Lemma pawnMoves_push_iff (st : state) (p : cell) :
  In (c_rank p + forward p, c_file p) (pawnMoves st p) <-> canPush st p = true.
Proof.
  unfold pawnMoves. rewrite !in_app_iff, !in_if_singleton.
  destruct (forward_cases p) as [-> | ->]; split.
  all: try (intros H; left; split; [exact H | reflexivity]).
  all: intros [[H _] | [[_ H] | [[_ H] | [_ H]]]]; try exact H.
  all: injection H; intros; lia.
Qed.

(** The guard of the single push accepts a square held by the pawn's own
    side: it only rejects squares held by the opponent. *)
Lemma canPush_spec (st : state) (p : cell) :
  canPush st p = true <->
  onBoard (c_rank p + forward p) (c_file p) = true /\
  ownerOn st (c_rank p + forward p) (c_file p) <> opponentOf (c_owner p).
Proof.
  unfold canPush, occupied. cbv zeta.
  destruct (onBoard _ _); cbn [andb]; [| intuition discriminate].
  destruct (ownerOn st _ _) as [o |]; cbn [negb orb].
  - destruct (owner_eqb (Some o) (opponentOf (c_owner p))) eqn:E; cbn [negb].
    + apply owner_eqb_eq in E. intuition congruence.
    + split; [| reflexivity]. intros _. split; [reflexivity |].
      intros H. apply owner_eqb_eq in H. congruence.
  - unfold opponentOf. destruct (owner_eqb (c_owner p) _);
      intuition congruence.
Qed.

(** The double-push square is returned exactly when the guard of the double
    push holds. *)
Lemma pawnMoves_double_iff (st : state) (p : cell) :
  In (c_rank p + 2 * forward p, c_file p) (pawnMoves st p)
  <-> canDouble st p = true.
Proof.
  unfold pawnMoves. rewrite !in_app_iff, !in_if_singleton.
  destruct (forward_cases p) as [-> | ->]; split.
  all: try (intros H; right; left; split; [exact H | reflexivity]).
  all: intros [[_ H] | [[H _] | [[_ H] | [_ H]]]]; try exact H.
  all: injection H; intros; lia.
Qed.

Lemma rules_p_push_iff (st : state) (p : cell) :
  grid8 st ->
  exists l, rules_p p st = (Ok l, st) /\
    (In (c_rank p + forward p, c_file p) l <->
     onBoard (c_rank p + forward p) (c_file p) = true /\
     ownerOn st (c_rank p + forward p) (c_file p) <> opponentOf (c_owner p)).
Proof.
  intros Hg. exists (pawnMoves st p). split; [now apply rules_p_run |].
  now rewrite pawnMoves_push_iff, canPush_spec.
Qed.

Lemma rules_p_double_iff (st : state) (p : cell) :
  grid8 st ->
  exists l, rules_p p st = (Ok l, st) /\
    (In (c_rank p + 2 * forward p, c_file p) l <->
     c_rank p = startRank p /\
     occupied st (c_rank p + forward p) (c_file p) = false).
Proof.
  intros Hg. exists (pawnMoves st p). split; [now apply rules_p_run |].
  rewrite pawnMoves_double_iff. unfold canDouble.
  now rewrite andb_true_iff, Z.eqb_eq, negb_true_iff.
Qed.

(** C1. The single push does not require the square ahead to be empty: the
    guard is [movableSpace] called with the opponent as the player, which
    lets through a square held by the pawn's own side.  With a white pawn
    on e2 and a white knight on e3, the pawn rule returns e3 (rank 5,
    file 4), the square the knight stands on, and the aggregator lists
    that move for White. *)
Theorem pawn_push_onto_own_piece :
  exists st pawn moves,
    importFile fenOwnBlocker = Some st /\
    cellAt st 6 4 = Some pawn /\
    c_p pawn = Lp /\ c_owner pawn = Some White /\
    ownerOn st 5 4 = Some White /\
    rules_p pawn st = (Ok [(5, 4)], st) /\
    getOptionsForPlayer 8 (st_playerTurn st) st = (Ok moves, st) /\
    In (mkMove Lp 6 4 5 4 false) moves.
Proof.
  eexists. eexists. eexists. split; [vm_compute; reflexivity |].
  split; [vm_compute; reflexivity |].
  do 4 (split; [vm_compute; reflexivity |]).
  split; [vm_compute; reflexivity |].
  simpl. tauto.
Qed.

(** C2. The double push only checks the square one step ahead, never the
    destination.  With a white pawn on e2, e3 empty and a black pawn on e4,
    the pawn rule returns e4 (rank 4, file 4) although it is occupied, and
    the aggregator lists that move for White. *)
Theorem pawn_double_push_onto_piece :
  exists st pawn moves,
    importFile fenBlockedDouble = Some st /\
    cellAt st 6 4 = Some pawn /\
    c_p pawn = Lp /\ c_owner pawn = Some White /\
    occupied st 5 4 = false /\ occupied st 4 4 = true /\
    rules_p pawn st = (Ok [(5, 4); (4, 4)], st) /\
    getOptionsForPlayer 8 (st_playerTurn st) st = (Ok moves, st) /\
    In (mkMove Lp 6 4 4 4 false) moves.
Proof.
  eexists. eexists. eexists. split; [vm_compute; reflexivity |].
  split; [vm_compute; reflexivity |].
  do 5 (split; [vm_compute; reflexivity |]).
  split; [vm_compute; reflexivity |].
  simpl. tauto.
Qed.

(** *** En passant *)

Lemma unoccupied_not_owned (st : state) (rank file : Z) (o : option player) :
  occupied st rank file = false ->
  owner_eqb (ownerOn st rank file) (opponentOf o) = false.
Proof.
  unfold occupied. destruct (ownerOn st rank file); [discriminate |].
  intros _. unfold opponentOf. now destruct (owner_eqb o _).
Qed.

Lemma isTarget_spec (st : state) (rank file : Z) :
  isTarget st rank file = true <-> st_enPassant st = Some (rank, file).
Proof.
  unfold isTarget. destruct (st_enPassant st) as [[r f] |]; [| easy].
  rewrite andb_true_iff, !Z.eqb_eq. split; [intros [-> ->] | intros [= -> ->]]; easy.
Qed.

Lemma count_if_singleton_ne (b : bool) (x y : Z * Z) :
  x <> y -> count_occ sq_dec (if b then [x] else []) y = 0%nat.
Proof. intros H. destruct b; simpl; [| reflexivity]. now destruct (sq_dec x y). Qed.

Lemma filter_if_singleton_ne (b : bool) (x y : Z * Z) :
  x <> y ->
  filter (fun z => negb (sq_eqb z y)) (if b then [x] else [])
  = if b then [x] else [].
Proof.
  intros H. destruct b; simpl; [| reflexivity].
  destruct (sq_eqb x y) eqn:E; [| reflexivity].
  now apply sq_eqb_eq in E.
Qed.

Lemma not_in_if_singleton_ne (b : bool) (x y : Z * Z) :
  x <> y -> ~ In y (if b then [x] else []).
Proof. intros H. rewrite in_if_singleton. intuition. Qed.

Lemma canCapture_clear (st : state) (p : cell) (d : Z) :
  canCapture (clearEnPassant st) p d
  = onBoard (c_rank p + forward p) (c_file p + d)
    && owner_eqb (ownerOn st (c_rank p + forward p) (c_file p + d))
                 (opponentOf (c_owner p)).
Proof. unfold canCapture, isTarget. simpl. now rewrite orb_false_r. Qed.

Lemma canCapture_other (st : state) (p : cell) (d d' : Z) :
  st_enPassant st = Some (c_rank p + forward p, c_file p + d) ->
  d' <> d ->
  canCapture st p d' = canCapture (clearEnPassant st) p d'.
Proof.
  intros Hep Hd. rewrite canCapture_clear. unfold canCapture, isTarget.
  rewrite Hep. replace (c_file p + d =? c_file p + d') with false.
  - now rewrite andb_false_r, orb_false_r.
  - symmetry. apply Z.eqb_neq. lia.
Qed.

(** C8. When the en-passant target is the empty square one forward-diagonal
    step from a pawn, the pawn rule returns that square exactly once, and
    it is the only difference with what the rule returns on the same
    position without a target; an empty forward-diagonal square that is
    not the target is never returned. *)
Theorem rules_p_en_passant (st : state) (p : cell) (d : Z) :
  grid8 st ->
  d = 1 \/ d = -1 ->
  occupied st (c_rank p + forward p) (c_file p + d) = false ->
  exists l l0,
    rules_p p st = (Ok l, st) /\
    rules_p p (clearEnPassant st) = (Ok l0, clearEnPassant st) /\
    (st_enPassant st = Some (c_rank p + forward p, c_file p + d) ->
     count_occ sq_dec l (c_rank p + forward p, c_file p + d) = 1%nat /\
     ~ In (c_rank p + forward p, c_file p + d) l0 /\
     l0 = filter (fun x => negb (sq_eqb x (c_rank p + forward p, c_file p + d))) l) /\
    (st_enPassant st <> Some (c_rank p + forward p, c_file p + d) ->
     ~ In (c_rank p + forward p, c_file p + d) l).
Proof.
  intros Hg Hd Hemp.
  exists (pawnMoves st p), (pawnMoves (clearEnPassant st) p).
  split; [now apply rules_p_run |].
  split; [now apply rules_p_run |].
  set (sq := (c_rank p + forward p, c_file p + d)).
  assert (Hpush : (c_rank p + forward p, c_file p) <> sq)
    by (unfold sq; intros [=]; lia).
  assert (Hdbl : (c_rank p + 2 * forward p, c_file p) <> sq)
    by (unfold sq; intros [=]; lia).
  assert (Hown : owner_eqb (ownerOn st (c_rank p + forward p) (c_file p + d))
                           (opponentOf (c_owner p)) = false)
    by now apply unoccupied_not_owned.
  assert (Hclr : canCapture (clearEnPassant st) p d = false)
    by (rewrite canCapture_clear, Hown; apply andb_false_r).
  split.
  - intros Hep.
    assert (Hcap : canCapture st p d = true).
    { unfold canCapture. apply orb_true_iff. right. now apply isTarget_spec. }
    unfold pawnMoves.
    change (canPush (clearEnPassant st) p) with (canPush st p).
    change (canDouble (clearEnPassant st) p) with (canDouble st p).
    destruct Hd as [-> | ->].
    + assert (Hother : (c_rank p + forward p, c_file p - 1) <> sq)
        by (unfold sq; intros [=]; lia).
      rewrite (canCapture_other st p 1 (-1) Hep) by lia.
      rewrite Hcap, Hclr. fold sq.
      rewrite !count_occ_app, !filter_app, !in_app_iff.
      rewrite !count_if_singleton_ne, !filter_if_singleton_ne by assumption.
      simpl. destruct (sq_dec sq sq) as [_ | N]; [| now elim N].
      replace (sq_eqb sq sq) with true by (symmetry; now apply sq_eqb_eq).
      simpl. split; [reflexivity |]. split; [| reflexivity].
      intros [H | [H | [[] | H]]]; revert H; now apply not_in_if_singleton_ne.
    + assert (Hother : (c_rank p + forward p, c_file p + 1) <> sq)
        by (unfold sq; intros [=]; lia).
      rewrite (canCapture_other st p (-1) 1 Hep) by lia.
      rewrite Hcap, Hclr.
      replace (c_file p - 1) with (c_file p + -1) by lia. fold sq.
      rewrite !count_occ_app, !filter_app, !in_app_iff.
      rewrite !count_if_singleton_ne, !filter_if_singleton_ne by assumption.
      simpl. destruct (sq_dec sq sq) as [_ | N]; [| now elim N].
      replace (sq_eqb sq sq) with true by (symmetry; now apply sq_eqb_eq).
      simpl. rewrite !app_nil_r. split; [reflexivity |]. split; [| reflexivity].
      intros [H | [H | [H | []]]]; revert H; now apply not_in_if_singleton_ne.
  - intros Hep.
    assert (Hcap : canCapture st p d = false).
    { unfold canCapture. rewrite Hown, andb_false_r. simpl.
      destruct (isTarget st _ _) eqn:E; [| reflexivity].
      now apply isTarget_spec in E. }
    unfold pawnMoves. rewrite !in_app_iff.
    destruct Hd as [-> | ->].
    + assert (Hother : (c_rank p + forward p, c_file p - 1) <> sq)
        by (unfold sq; intros [=]; lia).
      rewrite Hcap.
      intros [H | [H | [[] | H]]]; revert H; now apply not_in_if_singleton_ne.
    + assert (Hother : (c_rank p + forward p, c_file p + 1) <> sq)
        by (unfold sq; intros [=]; lia).
      rewrite Hcap.
      intros [H | [H | [H | []]]]; revert H; now apply not_in_if_singleton_ne.
Qed.

(** ** The leaper rule *)

Lemma mirrored_decode (l : letter) :
  mapR parseDir (symmetricalDirs (baseDirs l)) = Ok (mirroredDirs l).
Proof. destruct l; vm_compute; reflexivity. Qed.

Lemma mirroredDirs_NoDup (l : letter) : NoDup (mirroredDirs l).
Proof.
  destruct l; simpl;
    repeat (constructor; [simpl; intuition discriminate |]); constructor.
Qed.

Lemma mirroredDirs_nonzero (l : letter) : ~ In (0, 0) (mirroredDirs l).
Proof. destruct l; simpl; intuition discriminate. Qed.

Lemma mirroredDirs_length (l : letter) : (List.length (mirroredDirs l) <= 8)%nat.
Proof. destruct l; simpl; lia. Qed.

Lemma leaper_run (st : state) (dirs parsed : list (Z * Z)) (p : cell) :
  grid8 st ->
  mapR parseDir (symmetricalDirs dirs) = Ok parsed ->
  leaper dirs p st
  = (Ok (map (target p)
           (filter (fun dir =>
                      onBoard (fst (target p dir)) (snd (target p dir))
                      && (negb (occupied st (fst (target p dir)) (snd (target p dir)))
                          || negb (owner_eqb
                                     (ownerOn st (fst (target p dir)) (snd (target p dir)))
                                     (c_owner p))))
                   parsed)), st).
Proof.
  intros Hg Hparsed. unfold leaper. rewrite Hparsed.
  unfold bind at 1, liftR.
  erewrite bind_ok; [reflexivity |].
  apply filterM_run. intros dir _. now apply movableSpace_run.
Qed.

Lemma target_inj (p : cell) (d1 d2 : Z * Z) : target p d1 = target p d2 -> d1 = d2.
Proof.
  destruct d1, d2. unfold target. simpl. intros [=]. f_equal; lia.
Qed.

(** C10. The knight and king rules return at most 8 squares, pairwise
    distinct, all on the board, none of them the origin; the set of
    mirrored direction strings decodes to pairwise distinct offsets, none
    of them zero. *)
Theorem leaper_destinations (fuel : nat) (st : state) (p : cell) (l : letter) :
  grid8 st ->
  l = Ln \/ l = Lk ->
  exists rule offsets moves,
    rules fuel l = Some rule /\
    mapR parseDir (symmetricalDirs (baseDirs l)) = Ok offsets /\
    NoDup offsets /\ ~ In (0, 0) offsets /\
    rule p st = (Ok moves, st) /\
    (List.length moves <= 8)%nat /\
    NoDup moves /\
    allOnBoard moves /\
    ~ In (c_rank p, c_file p) moves.
Proof.
  intros Hg Hl.
  exists (leaper (baseDirs l)), (mirroredDirs l).
  eexists. split; [destruct Hl as [-> | ->]; reflexivity |].
  split; [apply mirrored_decode |].
  split; [apply mirroredDirs_NoDup |].
  split; [apply mirroredDirs_nonzero |].
  split; [apply (leaper_run st _ _ p Hg (mirrored_decode l)) |].
  split.
  { rewrite length_map.
    etransitivity; [apply filter_length_le | apply mirroredDirs_length]. }
  split.
  { apply NoDup_map_NoDup_ForallPairs.
    - intros d1 d2 _ _. apply target_inj.
    - apply NoDup_filter, mirroredDirs_NoDup. }
  split.
  { apply Forall_forall. intros sq Hin.
    apply in_map_iff in Hin. destruct Hin as (dir & <- & Hin).
    apply filter_In in Hin. destruct Hin as [_ Hin].
    now apply andb_true_iff in Hin. }
  intros Hin. apply in_map_iff in Hin. destruct Hin as (dir & Heq & Hin).
  apply filter_In in Hin. destruct Hin as [Hin _].
  apply (mirroredDirs_nonzero l).
  replace (0, 0) with dir; [exact Hin |].
  destruct dir as [d0 d1]. unfold target in Heq. simpl in Heq.
  injection Heq as H0 H1. f_equal; lia.
Qed.

(** ** The rider rule *)

Lemma walk_continue (st : state) (pos : Z * Z) :
  grid8 st ->
  (if onBoard (fst pos) (snd pos) then
     occ <- pieceAt (fst pos) (snd pos) ;; ret (negb occ)
   else ret false) st = (Ok (clearSq st pos), st).
Proof.
  intros Hg. unfold clearSq. destruct (onBoard _ _); [| reflexivity].
  now rewrite (bind_ok _ _ _ _ _ (pieceAt_run st _ _ Hg)).
Qed.

Lemma walk_unfold (fuel : nat) (dir pos : Z * Z) (spaces : list (Z * Z)) :
  walk fuel dir pos spaces =
  (continue <- (if onBoard (fst pos) (snd pos) then
                  occupied <- pieceAt (fst pos) (snd pos) ;;
                  ret (negb occupied)
                else ret false) ;;
   if continue then
     match fuel with
     | O => throw OutOfFuel
     | S fuel' =>
         walk fuel' dir (fst pos + fst dir, snd pos + snd dir) (spaces ++ [pos])
     end
   else ret (spaces, pos)).
Proof. destruct fuel; reflexivity. Qed.

Lemma rayAt_next (rank file : Z) (dir : Z * Z) (j : nat) :
  (fst (rayAt rank file dir (Z.of_nat j)) + fst dir,
   snd (rayAt rank file dir (Z.of_nat j)) + snd dir)
  = rayAt rank file dir (Z.of_nat (S j)).
Proof. unfold rayAt. simpl fst. simpl snd. f_equal; lia. Qed.

(** The loop collects the squares of the ray up to the first one that is
    off the board or occupied, provided the fuel covers them. *)
Lemma walk_run (st : state) (rank file : Z) (dir : Z * Z) :
  grid8 st ->
  forall (n fuel j : nat) (spaces : list (Z * Z)),
    (forall i, (j <= i < j + n)%nat ->
       clearSq st (rayAt rank file dir (Z.of_nat i)) = true) ->
    clearSq st (rayAt rank file dir (Z.of_nat (j + n))) = false ->
    (n <= fuel)%nat ->
    walk fuel dir (rayAt rank file dir (Z.of_nat j)) spaces st
    = (Ok (spaces ++ map (fun i => rayAt rank file dir (Z.of_nat i)) (seq j n),
           rayAt rank file dir (Z.of_nat (j + n))), st).
Proof.
  intros Hg. induction n as [| n IH]; intros fuel j spaces Hclear Hstop Hfuel.
  - rewrite walk_unfold, (bind_ok _ _ _ _ _ (walk_continue st _ Hg)).
    rewrite Nat.add_0_r in *. rewrite Hstop. simpl. now rewrite app_nil_r.
  - destruct fuel as [| fuel]; [lia |].
    rewrite walk_unfold, (bind_ok _ _ _ _ _ (walk_continue st _ Hg)).
    rewrite (Hclear j) by lia. rewrite rayAt_next.
    rewrite (IH fuel (S j)).
    + replace (S j + n)%nat with (j + S n)%nat by lia.
      cbn [seq map]. now rewrite <- app_assoc.
    + intros i Hi. apply Hclear. lia.
    + now replace (S j + n)%nat with (j + S n)%nat by lia.
    + lia.
Qed.

(** A search bounded by a point where the test fails finds the first such
    point. *)
Lemma first_stop (P : nat -> bool) (N j : nat) :
  P (j + N)%nat = false ->
  exists n, (n <= N)%nat /\
    (forall i, (j <= i < j + n)%nat -> P i = true) /\ P (j + n)%nat = false.
Proof.
  revert j. induction N as [| N IH]; intros j HN.
  - exists 0%nat. split; [lia |]. split; [intros i Hi; lia | exact HN].
  - destruct (P j) eqn:Ej.
    + destruct (IH (S j)) as (n & Hn & Hbefore & Hat).
      { now replace (S j + N)%nat with (j + S N)%nat by lia. }
      exists (S n). split; [lia |]. split.
      * intros i Hi. destruct (Nat.eq_dec i j) as [-> | Hne]; [exact Ej |].
        apply Hbefore. lia.
      * now replace (j + S n)%nat with (S j + n)%nat by lia.
    + exists 0%nat. split; [lia |]. split; [intros i Hi; lia |].
      now rewrite Nat.add_0_r.
Qed.

(** A ray in a non-zero direction has left the board after 8 steps. *)
Lemma ray_leaves_board (rank file : Z) (dir : Z * Z) (j : nat) :
  dir <> (0, 0) ->
  onBoard (fst (rayAt rank file dir (Z.of_nat j)))
          (snd (rayAt rank file dir (Z.of_nat j))) = true ->
  onBoard (fst (rayAt rank file dir (Z.of_nat (j + 8))))
          (snd (rayAt rank file dir (Z.of_nat (j + 8)))) = false.
Proof.
  intros Hdir Hon. apply onBoard_false. apply onBoard_spec in Hon.
  destruct dir as [d0 d1]. unfold rayAt in *. simpl in *.
  intros Hon'. apply Hdir.
  rewrite Nat2Z.inj_add in Hon'. f_equal; lia.
Qed.

Lemma ray_stops (st : state) (rank file : Z) (dir : Z * Z) :
  dir <> (0, 0) ->
  exists n, (n <= 8)%nat /\
    (forall i, (1 <= i < 1 + n)%nat ->
       clearSq st (rayAt rank file dir (Z.of_nat i)) = true) /\
    clearSq st (rayAt rank file dir (Z.of_nat (1 + n))) = false.
Proof.
  intros Hdir.
  destruct (onBoard (fst (rayAt rank file dir (Z.of_nat 1)))
                    (snd (rayAt rank file dir (Z.of_nat 1)))) eqn:Hon.
  - apply (first_stop (fun i => clearSq st (rayAt rank file dir (Z.of_nat i))) 8 1).
    unfold clearSq. now rewrite (ray_leaves_board rank file dir 1 Hdir Hon).
  - exists 0%nat. split; [lia |]. split; [intros i Hi; lia |].
    unfold clearSq. simpl Nat.add. now rewrite Hon.
Qed.

Lemma rayAt_inj (rank file : Z) (dir : Z * Z) (k k' : Z) :
  dir <> (0, 0) -> rayAt rank file dir k = rayAt rank file dir k' -> k = k'.
Proof.
  destruct dir as [d0 d1]. unfold rayAt. simpl. intros Hdir [= H0 H1].
  assert (Hd : d0 <> 0 \/ d1 <> 0).
  { destruct (Z.eq_dec d0 0) as [-> |]; [| now left].
    destruct (Z.eq_dec d1 0) as [-> |]; [now elim Hdir | now right]. }
  destruct Hd as [Hd | Hd]; nia.
Qed.

Lemma opponentOf_not_own (o : player) : opponentOf (Some o) <> Some o.
Proof. now destruct o. Qed.

Lemma in_raySquares (rank file : Z) (dir : Z * Z) (n : nat) (s : Z * Z) :
  In s (raySquares rank file dir n) <->
  exists i, (1 <= i <= n)%nat /\ s = rayAt rank file dir (Z.of_nat i).
Proof.
  unfold raySquares. rewrite in_map_iff. split.
  - intros (i & <- & Hi). apply in_seq in Hi. exists i. split; [lia | reflexivity].
  - intros (i & Hi & ->). exists i. split; [reflexivity |]. apply in_seq. lia.
Qed.

(** One ray of the rider, for a non-zero direction and 8 units of fuel. *)
Lemma getAllSpacesInDir_spec (fuel : nat) (st : state) (p : cell) (dir : Z * Z) :
  grid8 st -> dir <> (0, 0) -> (8 <= fuel)%nat ->
  exists ray,
    getAllSpacesInDir fuel (c_rank p) (c_file p) (opponentOf (c_owner p)) dir st
    = (Ok ray, st) /\
    RaySpec st p dir ray.
Proof.
  intros Hg Hdir Hfuel.
  destruct (ray_stops st (c_rank p) (c_file p) dir Hdir) as (n & Hn & Hclear & Hstop).
  set (sq := rayAt (c_rank p) (c_file p) dir) in *.
  set (stop := sq (Z.of_nat (S n))).
  set (hit := onBoard (fst stop) (snd stop)
              && owner_eqb (ownerOn st (fst stop) (snd stop))
                           (opponentOf (c_owner p))).
  exists (raySquares (c_rank p) (c_file p) dir n ++ (if hit then [stop] else [])).
  split.
  - unfold getAllSpacesInDir. cbv zeta.
    replace (c_rank p + fst dir, c_file p + snd dir) with (sq (Z.of_nat 1))
      by (unfold sq, rayAt; f_equal; lia).
    assert (Hle : (n <= fuel)%nat) by lia.
    rewrite (bind_ok _ _ _ _ _
               (walk_run st _ _ dir Hg n fuel 1%nat [] Hclear Hstop Hle)).
    cbn [fst snd app].
    rewrite (bind_ok _ _ _ _ _ (ownedPieceAt_run st _ _ _ Hg)).
    unfold ret. change (1 + n)%nat with (S n).
    unfold raySquares, hit, stop. fold sq.
    destruct (onBoard _ _ && owner_eqb _ _);
      [reflexivity | now rewrite app_nil_r].
  - exists n. cbv zeta. fold sq. fold stop. fold hit.
    assert (Hbefore : forall i, (1 <= i <= n)%nat ->
              onBoard (fst (sq (Z.of_nat i))) (snd (sq (Z.of_nat i))) = true /\
              occupied st (fst (sq (Z.of_nat i))) (snd (sq (Z.of_nat i))) = false).
    { intros i Hi. specialize (Hclear i ltac:(lia)). unfold clearSq in Hclear.
      apply andb_true_iff in Hclear. destruct Hclear as [H1 H2].
      now apply negb_true_iff in H2. }
    split; [exact Hbefore |].
    split.
    { unfold clearSq in Hstop. change (1 + n)%nat with (S n) in Hstop.
      fold stop in Hstop.
      apply andb_false_iff in Hstop. destruct Hstop as [H | H]; [now left |].
      right. now apply negb_false_iff in H. }
    split; [reflexivity |].
    split.
    + intros k Hk Hin. apply in_app_iff in Hin. destruct Hin as [Hin | Hin].
      * apply in_raySquares in Hin. destruct Hin as (i & Hi & Heq).
        apply rayAt_inj in Heq; [lia | exact Hdir].
      * destruct hit; [| contradiction]. destruct Hin as [Heq | []].
        unfold stop, sq in Heq. apply rayAt_inj in Heq; [lia | exact Hdir].
    + intros s o Hin Ho Hown. apply in_app_iff in Hin. destruct Hin as [Hin | Hin].
      * apply in_raySquares in Hin. destruct Hin as (i & Hi & ->).
        destruct (Hbefore i Hi) as [_ Hocc]. fold sq in Hown.
        unfold occupied in Hocc. now rewrite Hown in Hocc.
      * destruct hit eqn:Ehit; [| contradiction]. destruct Hin as [<- | []].
        unfold hit in Ehit. apply andb_true_iff in Ehit. destruct Ehit as [_ E].
        apply owner_eqb_eq in E. rewrite Hown, Ho in E.
        symmetry in E. now apply opponentOf_not_own in E.
Qed.

(** The rider concatenates the rays of its directions. *)
Lemma rider_spec (fuel : nat) (st : state) (p : cell) (dirs parsed : list (Z * Z)) :
  grid8 st -> (8 <= fuel)%nat ->
  mapR parseDir (symmetricalDirs dirs) = Ok parsed ->
  ~ In (0, 0) parsed ->
  exists rays,
    rider fuel dirs p st = (Ok (List.concat rays), st) /\
    Forall2 (RaySpec st p) parsed rays.
Proof.
  intros Hg Hfuel Hparsed Hnz. unfold rider. rewrite Hparsed.
  unfold bind at 1, liftR.
  enough (H : forall init, exists rays,
             foldM (fun arr dir =>
                      spaces <- getAllSpacesInDir fuel (c_rank p) (c_file p)
                                  (opponentOf (c_owner p)) dir ;;
                      ret (arr ++ spaces)) parsed init st
             = (Ok (init ++ List.concat rays), st) /\
             Forall2 (RaySpec st p) parsed rays).
  { destruct (H []) as (rays & Hrun & Hspec). now exists rays. }
  clear Hparsed. induction parsed as [| dir rest IH]; intros init.
  - exists []. split; [simpl; now rewrite app_nil_r | constructor].
  - assert (Hdir : dir <> (0, 0)) by (intros ->; apply Hnz; now left).
    destruct (getAllSpacesInDir_spec fuel st p dir Hg Hdir Hfuel)
      as (ray & Hray & Hspec).
    destruct (IH (fun H => Hnz (or_intror H)) (init ++ ray))
      as (rays & Hrun & Hrays).
    exists (ray :: rays). split; [| now constructor].
    cbn [foldM]. rewrite (bind_ok _ _ st st (init ++ ray)).
    + rewrite Hrun. cbn [List.concat]. now rewrite app_assoc.
    + now rewrite (bind_ok _ _ _ _ _ Hray).
Qed.


(** ** The castling rule *)

Lemma getCastlingOptions_run (st : state) (pl : player) :
  grid8 st -> getCastlingOptions pl st = (Ok (castlingMoves st pl), st).
Proof.
  intros Hg.
  unfold getCastlingOptions, castlingMoves, kingsideOk, queensideOk,
    kingsideMoves, queensideMoves, castlingOf, rightsOf, homeRank.
  unfold bind at 1 2. unfold gets, ret at 1. cbv beta iota.
  destruct pl; cbn [player_eqb];
    destruct (r_k _); destruct (r_q _); cbn [andb];
    run_geometry Hg; cbn [negb andb app]; split_ifs; reflexivity.
Qed.

Lemma kingsideOk_spec (st : state) (pl : player) :
  kingsideOk st pl = true <->
  r_k (rightsOf st pl) = true /\
  occupied st (homeRank pl) 5 = false /\ occupied st (homeRank pl) 6 = false.
Proof.
  unfold kingsideOk. rewrite !andb_true_iff, !negb_true_iff. tauto.
Qed.

Lemma queensideOk_spec (st : state) (pl : player) :
  queensideOk st pl = true <->
  r_q (rightsOf st pl) = true /\
  occupied st (homeRank pl) 1 = false /\ occupied st (homeRank pl) 2 = false /\
  occupied st (homeRank pl) 3 = false.
Proof.
  unfold queensideOk. rewrite !andb_true_iff, !negb_true_iff. tauto.
Qed.

Lemma in_kingside_castlingMoves (st : state) (pl : player) (m : move) :
  In m (kingsideMoves pl) -> (In m (castlingMoves st pl) <-> kingsideOk st pl = true).
Proof.
  intros Hm. unfold castlingMoves. rewrite in_app_iff. split.
  - intros [H | H].
    + now destruct (kingsideOk st pl).
    + destruct (queensideOk st pl); [| contradiction].
      unfold kingsideMoves, queensideMoves in *. simpl in Hm, H.
      destruct Hm as [<- | [<- | []]]; destruct H as [H | [H | []]];
        discriminate H.
  - intros ->. now left.
Qed.

Lemma in_queenside_castlingMoves (st : state) (pl : player) (m : move) :
  In m (queensideMoves pl) -> (In m (castlingMoves st pl) <-> queensideOk st pl = true).
Proof.
  intros Hm. unfold castlingMoves. rewrite in_app_iff. split.
  - intros [H | H].
    + destruct (kingsideOk st pl); [| contradiction].
      unfold kingsideMoves, queensideMoves in *. simpl in Hm, H.
      destruct Hm as [<- | [<- | []]]; destruct H as [H | [H | []]];
        discriminate H.
    + now destruct (queensideOk st pl).
  - intros ->. now right.
Qed.

Lemma castlingMoves_flagged (st : state) (pl : player) :
  Forall (fun m => castle m = true) (castlingMoves st pl).
Proof.
  unfold castlingMoves. apply Forall_app.
  split; [destruct (kingsideOk st pl) | destruct (queensideOk st pl)];
    repeat constructor.
Qed.

(** C5. The castling rule returns, for each wing, either both records of
    the wing (king then rook, on the home rank, flagged as castle) or
    neither; a wing's records are returned exactly when its rights flag is
    set and the squares between king and rook (files 5 and 6, or files 1, 2
    and 3) are unoccupied. *)
Theorem castling_pairs (st : state) (pl : player) :
  grid8 st ->
  let rank := homeRank pl in
  let kingside :=
    r_k (rightsOf st pl) = true /\
    occupied st rank 5 = false /\ occupied st rank 6 = false in
  let queenside :=
    r_q (rightsOf st pl) = true /\
    occupied st rank 1 = false /\ occupied st rank 2 = false /\
    occupied st rank 3 = false in
  exists l,
    getCastlingOptions pl st = (Ok l, st) /\
    l = (if kingsideOk st pl
         then [mkMove Lk rank 4 rank 6 true; mkMove Lr rank 7 rank 5 true]
         else [])
        ++ (if queensideOk st pl
            then [mkMove Lk rank 4 rank 2 true; mkMove Lr rank 0 rank 3 true]
            else []) /\
    (kingsideOk st pl = true <-> kingside) /\
    (queensideOk st pl = true <-> queenside) /\
    (In (mkMove Lk rank 4 rank 6 true) l <-> kingside) /\
    (In (mkMove Lr rank 7 rank 5 true) l <-> kingside) /\
    (In (mkMove Lk rank 4 rank 2 true) l <-> queenside) /\
    (In (mkMove Lr rank 0 rank 3 true) l <-> queenside) /\
    Forall (fun m => castle m = true) l.
Proof.
  intros Hg rank kingside queenside.
  exists (castlingMoves st pl).
  split; [now apply getCastlingOptions_run |].
  split; [reflexivity |].
  split; [apply kingsideOk_spec |].
  split; [apply queensideOk_spec |].
  unfold kingside, queenside, rank.
  rewrite <- kingsideOk_spec, <- queensideOk_spec.
  repeat split.
  1-4: apply in_kingside_castlingMoves; simpl; auto.
  1-4: apply in_queenside_castlingMoves; simpl; auto.
  apply castlingMoves_flagged.
Qed.

(** ** The player aggregator *)

Lemma playersPieces_fold (f : cell -> bool) (board : list (list cell))
    (init : list cell) :
  fold_left (fun pre row => pre ++ filter f row) board init
  = init ++ flat_map (filter f) board.
Proof.
  revert init. induction board as [| row rest IH]; intros init; simpl.
  - now rewrite app_nil_r.
  - now rewrite IH, app_assoc.
Qed.

Lemma getOptionsForPlayer_unfold (fuel : nat) (pl : player) (st : state) :
  getOptionsForPlayer fuel pl st
  = (options <- foldM (fun pre pc =>
                         opts <- getOptionsForPiece fuel pc ;; ret (pre ++ opts))
                      (piecesOf st pl) [] ;;
     castles <- getCastlingOptions pl ;;
     ret (options ++ castles)) st.
Proof.
  unfold getOptionsForPlayer. unfold bind at 1. unfold gets. cbv beta iota.
  now rewrite playersPieces_fold.
Qed.

Lemma ownsNothing_piecesOf (st : state) (pl : player) :
  ownsNothing st pl -> piecesOf st pl = [].
Proof.
  unfold ownsNothing, piecesOf. induction 1 as [| row rest Hrow _ IH]; simpl.
  - reflexivity.
  - rewrite IH, app_nil_r. induction Hrow as [| c cs Hc _ IHc]; simpl.
    + reflexivity.
    + now rewrite Hc.
Qed.

(** A reduction that appends what its callback returns answers when the
    callback does. *)
Lemma foldM_append_total {A B} (f : A -> M (list B)) (l : list A)
    (init : list B) (s : state) :
  (forall x, In x l -> exists r, f x s = (Ok r, s)) ->
  exists rs, foldM (fun acc x => r <- f x ;; ret (acc ++ r)) l init s
             = (Ok (init ++ rs), s).
Proof.
  revert init. induction l as [| x xs IH]; intros init Hf.
  - exists []. simpl. now rewrite app_nil_r.
  - destruct (Hf x (or_introl eq_refl)) as [r Hr].
    destruct (IH (init ++ r) (fun y Hy => Hf y (or_intror Hy))) as [rs Hrs].
    exists (r ++ rs). cbn [foldM]. rewrite (bind_ok _ _ s s (init ++ r)).
    + now rewrite Hrs, app_assoc.
    + now rewrite (bind_ok _ _ _ _ _ Hr).
Qed.

(** Every rule of the table answers on a well-formed position. *)
Lemma rules_total (fuel : nat) (st : state) (p : cell) (l : letter)
    (rule : cell -> M (list (Z * Z))) :
  grid8 st -> (8 <= fuel)%nat ->
  rules fuel l = Some rule ->
  exists moves, rule p st = (Ok moves, st).
Proof.
  intros Hg Hfuel Hrule.
  destruct l; simpl in Hrule; inversion Hrule; subst rule; clear Hrule.
  - eexists. now apply rules_p_run.
  - eexists. apply (leaper_run st _ _ p Hg (mirrored_decode Ln)).
  - destruct (rider_spec fuel st p _ _ Hg Hfuel (mirrored_decode Lb)
                (mirroredDirs_nonzero Lb)) as (rays & Hrun & _).
    eexists. exact Hrun.
  - destruct (rider_spec fuel st p _ _ Hg Hfuel (mirrored_decode Lr)
                (mirroredDirs_nonzero Lr)) as (rays & Hrun & _).
    eexists. exact Hrun.
  - destruct (rider_spec fuel st p _ _ Hg Hfuel (mirrored_decode Lq)
                (mirroredDirs_nonzero Lq)) as (rays & Hrun & _).
    eexists. exact Hrun.
  - eexists. apply (leaper_run st _ _ p Hg (mirrored_decode Lk)).
Qed.

Lemma getOptionsForPiece_total (fuel : nat) (st : state) (pc : cell) :
  grid8 st -> (8 <= fuel)%nat -> c_p pc <> Lx ->
  exists l, getOptionsForPiece fuel pc st = (Ok l, st).
Proof.
  intros Hg Hfuel Hx. unfold getOptionsForPiece.
  destruct (rules fuel (c_p pc)) as [rule |] eqn:Erule.
  - destruct (rules_total fuel st pc _ rule Hg Hfuel Erule) as [moves Hm].
    eexists. now rewrite (bind_ok _ _ _ _ _ Hm).
  - destruct (c_p pc); try discriminate. now elim Hx.
Qed.

Lemma piecesOf_lettered (st : state) (pl : player) (pc : cell) :
  piecesLettered st -> In pc (piecesOf st pl) -> c_p pc <> Lx.
Proof.
  unfold piecesLettered, piecesOf. intros Hl Hin.
  apply in_flat_map in Hin. destruct Hin as (row & Hrow & Hin).
  apply filter_In in Hin. destruct Hin as [Hin Hown].
  rewrite Forall_forall in Hl. specialize (Hl row Hrow).
  rewrite Forall_forall in Hl. apply (Hl pc Hin).
  intros Hnone. rewrite Hnone in Hown. discriminate.
Qed.

(** The aggregator answers on a well-formed position, with the castling
    moves at the end of its list. *)
Lemma getOptionsForPlayer_total (fuel : nat) (st : state) (pl : player) :
  grid8 st -> piecesLettered st -> (8 <= fuel)%nat ->
  exists options,
    getOptionsForPlayer fuel pl st = (Ok (options ++ castlingMoves st pl), st).
Proof.
  intros Hg Hl Hfuel. rewrite getOptionsForPlayer_unfold.
  destruct (foldM_append_total (getOptionsForPiece fuel) (piecesOf st pl) [] st)
    as [options Hopt].
  { intros pc Hin. apply getOptionsForPiece_total; try assumption.
    now apply (piecesOf_lettered st pl). }
  exists options. rewrite (bind_ok _ _ _ _ _ Hopt).
  now rewrite (bind_ok _ _ _ _ _ (getCastlingOptions_run st pl Hg)).
Qed.

Lemma piecesLetteredb_spec (st : state) :
  piecesLetteredb st = true -> piecesLettered st.
Proof.
  unfold piecesLetteredb, piecesLettered.
  rewrite forallb_forall, Forall_forall. intros H row Hrow.
  specialize (H row Hrow). rewrite forallb_forall in H.
  apply Forall_forall. intros c Hc Hown Hx. specialize (H c Hc).
  rewrite Hx in H. destruct (c_owner c); [discriminate H | now elim Hown].
Qed.

(** C3, as stated, fails: a side without pieces still gets its castling
    moves.  On an empty board with the kingside right set for White, the
    aggregator returns the two kingside records. *)
Lemma no_pieces_counterexample :
  ownsNothing (position fenNoPieces) White /\
  getOptionsForPlayer 8 White (position fenNoPieces)
  = (Ok [mkMove Lk 7 4 7 6 true; mkMove Lr 7 7 7 5 true], position fenNoPieces) /\
  fst (getOptionsForPlayer 8 White (position fenNoPieces)) <> Ok [].
Proof.
  split; [vm_compute; repeat constructor |].
  split; [vm_compute; reflexivity | vm_compute; discriminate].
Qed.

(** C3 (amended). When a side owns no piece, the aggregator returns what
    the castling rule returns for that side and nothing else: no piece
    move, and the castling records of each wing whose rights flag is set
    and whose intervening squares are empty. *)
Theorem no_pieces_only_castling (fuel : nat) (st : state) (pl : player) :
  grid8 st ->
  ownsNothing st pl ->
  exists l,
    getOptionsForPlayer fuel pl st = (Ok l, st) /\
    getCastlingOptions pl st = (Ok l, st) /\
    l = castlingMoves st pl /\
    Forall (fun m => castle m = true) l /\
    (l = [] <-> kingsideOk st pl = false /\ queensideOk st pl = false).
Proof.
  intros Hg Hnone. exists (castlingMoves st pl).
  split.
  { rewrite getOptionsForPlayer_unfold, (ownsNothing_piecesOf st pl Hnone).
    cbn [foldM]. unfold bind at 1. unfold ret at 1. cbv beta iota.
    now rewrite (bind_ok _ _ _ _ _ (getCastlingOptions_run st pl Hg)). }
  split; [now apply getCastlingOptions_run |].
  split; [reflexivity |].
  split; [apply castlingMoves_flagged |].
  unfold castlingMoves, kingsideMoves, queensideMoves.
  destruct (kingsideOk st pl), (queensideOk st pl); simpl;
    intuition discriminate.
Qed.

(** C6. On the standard starting position with White to move, the
    aggregator returns exactly 20 moves: the single and the double push of
    each of the 8 pawns, two moves for each knight, and no castling move. *)
Theorem start_position_moves (fuel : nat) :
  exists st l,
    importFile fenStart = Some st /\
    st_playerTurn st = White /\
    st_castling st = mkCastling (mkRights true true) (mkRights true true) /\
    st_enPassant st = None /\
    getOptionsForPlayer fuel (st_playerTurn st) st = (Ok l, st) /\
    l = startMoves /\
    List.length l = 20%nat /\
    List.length (filter (fun m => letter_eqb (piece m) Lp) l) = 16%nat /\
    List.length (filter (fun m => letter_eqb (piece m) Ln) l) = 4%nat /\
    List.length (filter castle l) = 0%nat /\
    getCastlingOptions White st = (Ok [], st).
Proof.
  exists (position fenStart), startMoves.
  split; [vm_compute; reflexivity |].
  repeat split; try (vm_compute; reflexivity).
  destruct fuel; vm_compute; reflexivity.
Qed.

(** ** Totality of the geometry predicates *)

(** C7, as the code has it.  [enPassant] compares its arguments with the
    stored target and nothing else: on the position read from a text whose
    en-passant field is ["i9"] the target is [(-1, 8)], a pair that is not
    a square of the board, and [enPassant] answers [true] there. *)
Lemma geometry_total_counterexample :
  importFile fenTargetOffBoard = Some (position fenTargetOffBoard) /\
  grid8 (position fenTargetOffBoard) /\
  st_enPassant (position fenTargetOffBoard) = Some (-1, 8) /\
  onBoard (-1) 8 = false /\
  enPassant (-1) 8 (position fenTargetOffBoard)
  = (Ok true, position fenTargetOffBoard).
Proof.
  split; [vm_compute; reflexivity |].
  split; [apply grid8b_spec; vm_compute; reflexivity |].
  repeat split; vm_compute; reflexivity.
Qed.

(** C7. On a position whose board is 8 by 8, every geometry predicate
    answers for all integer coordinates without a [TypeError] (no read
    outside the board); [onBoard], [pieceAt], [ownedPieceAt] and
    [movableSpace] answer [false] off the board; [enPassant] answers
    [true] exactly at the stored target, hence [false] off the board when
    that target, if any, is a square of the board; the rules of the table
    and the castling rule, which call them, answer as well. *)
Theorem geometry_total (st : state) (rank file : Z) (pl : option player) :
  grid8 st ->
  (onBoard rank file = true <-> 0 <= rank <= 7 /\ 0 <= file <= 7) /\
  (exists b, pieceAt rank file st = (Ok b, st) /\
             (onBoard rank file = false -> b = false)) /\
  (exists b, ownedPieceAt rank file pl st = (Ok b, st) /\
             (onBoard rank file = false -> b = false)) /\
  (exists b, movableSpace rank file pl st = (Ok b, st) /\
             (onBoard rank file = false -> b = false)) /\
  (exists b, enPassant rank file st = (Ok b, st) /\
             (b = true <-> st_enPassant st = Some (rank, file)) /\
             (epOnBoard st -> onBoard rank file = false -> b = false)) /\
  (forall fuel l rule p,
      (8 <= fuel)%nat -> rules fuel l = Some rule ->
      exists moves, rule p st = (Ok moves, st)) /\
  (forall side, exists moves, getCastlingOptions side st = (Ok moves, st)).
Proof.
  intros Hg.
  split; [apply onBoard_spec |].
  split.
  { eexists. split; [now apply pieceAt_run |].
    intros Hoff. now apply occupied_offBoard. }
  split.
  { eexists. split; [now apply ownedPieceAt_run |]. now intros ->. }
  split.
  { eexists. split; [now apply movableSpace_run |]. now intros ->. }
  split.
  { eexists. split; [apply enPassant_run |]. split.
    - destruct (st_enPassant st) as [[r f] |]; [| split; discriminate].
      rewrite andb_true_iff, !Z.eqb_eq. split.
      + now intros [-> ->].
      + intros [= -> ->]. now split.
    - intros Hep Hoff. unfold epOnBoard in Hep.
      destruct (st_enPassant st) as [[r f] |]; [| reflexivity].
      destruct (Z.eqb_spec r rank) as [-> |]; [| reflexivity].
      destruct (Z.eqb_spec f file) as [-> |]; [| reflexivity].
      congruence. }
  split.
  { intros fuel l rule p Hfuel Hrule.
    now apply (rules_total fuel st p l rule). }
  intros side. eexists. now apply getCastlingOptions_run.
Qed.

(** ** The position is only read *)

Create HintDb ro.

#[local] Hint Resolve readonly_ret readonly_throw readonly_gets readonly_liftR
  : ro.

Ltac read_only :=
  cbv zeta;
  repeat first
    [ solve [auto with ro]
    | apply readonly_bind; [| intros ?]
    | apply readonly_filterM; intros ?
    | apply readonly_foldM; intros ? ?
    | match goal with
      | |- readonly (match ?x with _ => _ end) => destruct x
      end ].

Lemma boardOwner_readonly (rank file : Z) : readonly (boardOwner rank file).
Proof. unfold boardOwner. read_only. Qed.
#[local] Hint Resolve boardOwner_readonly : ro.

Lemma pieceAt_readonly (rank file : Z) : readonly (pieceAt rank file).
Proof. unfold pieceAt. read_only. Qed.
#[local] Hint Resolve pieceAt_readonly : ro.

Lemma ownedPieceAt_readonly (rank file : Z) (pl : option player) :
  readonly (ownedPieceAt rank file pl).
Proof. unfold ownedPieceAt. read_only. Qed.
#[local] Hint Resolve ownedPieceAt_readonly : ro.

Lemma movableSpace_readonly (rank file : Z) (pl : option player) :
  readonly (movableSpace rank file pl).
Proof. unfold movableSpace. read_only. Qed.
#[local] Hint Resolve movableSpace_readonly : ro.

Lemma enPassant_readonly (rank file : Z) : readonly (enPassant rank file).
Proof. unfold enPassant. read_only. Qed.
#[local] Hint Resolve enPassant_readonly : ro.

Lemma leaper_readonly (dirs : list (Z * Z)) (p : cell) : readonly (leaper dirs p).
Proof. unfold leaper. read_only. Qed.
#[local] Hint Resolve leaper_readonly : ro.

Lemma walk_readonly (fuel : nat) (dir pos : Z * Z) (spaces : list (Z * Z)) :
  readonly (walk fuel dir pos spaces).
Proof.
  revert pos spaces. induction fuel as [| fuel IH]; intros pos spaces;
    rewrite walk_unfold; read_only.
Qed.
#[local] Hint Resolve walk_readonly : ro.

Lemma getAllSpacesInDir_readonly (fuel : nat) (rank file : Z)
    (opponent : option player) (dir : Z * Z) :
  readonly (getAllSpacesInDir fuel rank file opponent dir).
Proof. unfold getAllSpacesInDir. read_only. Qed.
#[local] Hint Resolve getAllSpacesInDir_readonly : ro.

Lemma rider_readonly (fuel : nat) (dirs : list (Z * Z)) (p : cell) :
  readonly (rider fuel dirs p).
Proof. unfold rider. read_only. Qed.
#[local] Hint Resolve rider_readonly : ro.

Lemma rules_p_readonly (p : cell) : readonly (rules_p p).
Proof. unfold rules_p. read_only. Qed.
#[local] Hint Resolve rules_p_readonly : ro.

Lemma getOptionsForPiece_readonly (fuel : nat) (pc : cell) :
  readonly (getOptionsForPiece fuel pc).
Proof.
  unfold getOptionsForPiece.
  destruct (rules fuel (c_p pc)) as [rule |] eqn:Erule; [| read_only].
  apply readonly_bind; [| read_only].
  destruct (c_p pc); simpl in Erule; inversion Erule; subst rule; read_only.
Qed.
#[local] Hint Resolve getOptionsForPiece_readonly : ro.

Lemma getCastlingOptions_readonly (pl : player) : readonly (getCastlingOptions pl).
Proof. unfold getCastlingOptions, castlingOf. read_only. Qed.
#[local] Hint Resolve getCastlingOptions_readonly : ro.

(** The aggregator hands the position back unchanged, whatever it is. *)
Lemma getOptionsForPlayer_readonly (fuel : nat) (pl : player) :
  readonly (getOptionsForPlayer fuel pl).
Proof. unfold getOptionsForPlayer. read_only. Qed.

(** C9. Two calls of the aggregator in a row return the same outcome, the
    same move list in the same order, and the position is the same before
    the first call, between the calls and after the second; on a
    well-formed position that outcome is a move list. *)
Theorem getOptionsForPlayer_idempotent (fuel : nat) (st : state) (pl : player) :
  exists r,
    getOptionsForPlayer fuel pl st = (r, st) /\
    callTwice fuel pl st = (both r, st) /\
    (grid8 st -> piecesLettered st -> (8 <= fuel)%nat -> exists l, r = Ok l).
Proof.
  exists (fst (getOptionsForPlayer fuel pl st)).
  pose proof (readonly_run _ st (getOptionsForPlayer_readonly fuel pl)) as Hrun.
  split; [exact Hrun |].
  split.
  - unfold callTwice, bind. rewrite Hrun.
    destruct (fst (getOptionsForPlayer fuel pl st)) as [l | e]; [| reflexivity].
    now rewrite Hrun.
  - intros Hg Hl Hfuel.
    destruct (getOptionsForPlayer_total fuel st pl Hg Hl Hfuel) as [options Ho].
    rewrite Ho. now eexists.
Qed.

(** A queen alone on d5 reaches the 27 squares of its 8 rays. *)
Example queen_alone_27 :
  exists moves,
    rider 8 (baseDirs Lq) (mkCell Lq 3 3 (Some White)) (position fenQueen)
    = (Ok moves, position fenQueen) /\
    List.length moves = 27%nat /\ NoDup moves.
Proof.
  eexists. split; [vm_compute; reflexivity |].
  split; [reflexivity |].
  repeat (constructor; [simpl; intuition discriminate |]). constructor.
Qed.

(** ** Instances on concrete positions *)

Lemma no_pieces_only_castling_witness :
  grid8 (position fenNoPieces) /\
  ownsNothing (position fenNoPieces) White /\
  exists l,
    getOptionsForPlayer 8 White (position fenNoPieces)
    = (Ok l, position fenNoPieces) /\
    getCastlingOptions White (position fenNoPieces)
    = (Ok l, position fenNoPieces) /\
    l = castlingMoves (position fenNoPieces) White /\
    Forall (fun m => castle m = true) l /\
    (l = [] <-> kingsideOk (position fenNoPieces) White = false /\
                queensideOk (position fenNoPieces) White = false).
Proof.
  assert (Hg : grid8 (position fenNoPieces))
    by (apply grid8b_spec; vm_compute; reflexivity).
  assert (Hn : ownsNothing (position fenNoPieces) White)
    by (vm_compute; repeat constructor).
  split; [exact Hg |]. split; [exact Hn |].
  exact (no_pieces_only_castling 8 (position fenNoPieces) White Hg Hn).
Defined.


Lemma castling_pairs_witness :
  grid8 (position fenCastle) /\
  exists l,
    getCastlingOptions White (position fenCastle) = (Ok l, position fenCastle) /\
    l = [mkMove Lk 7 4 7 6 true; mkMove Lr 7 7 7 5 true;
         mkMove Lk 7 4 7 2 true; mkMove Lr 7 0 7 3 true].
Proof.
  assert (Hg : grid8 (position fenCastle))
    by (apply grid8b_spec; vm_compute; reflexivity).
  split; [exact Hg |].
  destruct (castling_pairs (position fenCastle) White Hg)
    as (l & Hrun & Hl & _).
  exists l. split; [exact Hrun |]. rewrite Hl. vm_compute. reflexivity.
Defined.

Lemma geometry_total_witness :
  grid8 (position fenTargetOffBoard) /\
  (exists b, pieceAt (-1) 8 (position fenTargetOffBoard)
             = (Ok b, position fenTargetOffBoard) /\
             (onBoard (-1) 8 = false -> b = false)) /\
  (exists b, movableSpace (-1) 8 (Some White) (position fenTargetOffBoard)
             = (Ok b, position fenTargetOffBoard) /\
             (onBoard (-1) 8 = false -> b = false)) /\
  (exists b, enPassant (-1) 8 (position fenTargetOffBoard)
             = (Ok b, position fenTargetOffBoard) /\
             (b = true <-> st_enPassant (position fenTargetOffBoard)
                           = Some (-1, 8))).
Proof.
  assert (Hg : grid8 (position fenTargetOffBoard))
    by (apply grid8b_spec; vm_compute; reflexivity).
  split; [exact Hg |].
  destruct (geometry_total (position fenTargetOffBoard) (-1) 8 (Some White) Hg)
    as (_ & Hpiece & _ & Hmov & (b & Hrun & Hiff & _) & _).
  split; [exact Hpiece |]. split; [exact Hmov |].
  exists b. split; [exact Hrun | exact Hiff].
Defined.

Lemma rules_p_en_passant_witness :
  let st := position fenEnPassant in
  let p := mkCell Lp 4 3 (Some Black) in
  grid8 st /\
  (1 = 1 \/ 1 = -1) /\
  occupied st (c_rank p + forward p) (c_file p + 1) = false /\
  st_enPassant st = Some (c_rank p + forward p, c_file p + 1) /\
  exists l l0,
    rules_p p st = (Ok l, st) /\
    rules_p p (clearEnPassant st) = (Ok l0, clearEnPassant st) /\
    (st_enPassant st = Some (c_rank p + forward p, c_file p + 1) ->
     count_occ sq_dec l (c_rank p + forward p, c_file p + 1) = 1%nat /\
     ~ In (c_rank p + forward p, c_file p + 1) l0 /\
     l0 = filter (fun x => negb (sq_eqb x (c_rank p + forward p, c_file p + 1))) l) /\
    (st_enPassant st <> Some (c_rank p + forward p, c_file p + 1) ->
     ~ In (c_rank p + forward p, c_file p + 1) l).
Proof.
  intros st p.
  assert (Hg : grid8 st) by (apply grid8b_spec; vm_compute; reflexivity).
  assert (Hd : 1 = 1 \/ 1 = -1) by (left; reflexivity).
  assert (He : occupied st (c_rank p + forward p) (c_file p + 1) = false)
    by (vm_compute; reflexivity).
  split; [exact Hg |]. split; [exact Hd |]. split; [exact He |].
  split; [vm_compute; reflexivity |].
  exact (rules_p_en_passant st p 1 Hg Hd He).
Defined.

Lemma getOptionsForPlayer_idempotent_witness :
  grid8 (position fenStart) /\
  piecesLettered (position fenStart) /\
  (8 <= 8)%nat /\
  exists l,
    getOptionsForPlayer 8 White (position fenStart)
    = (Ok l, position fenStart) /\
    callTwice 8 White (position fenStart) = (Ok (l, l), position fenStart).
Proof.
  assert (Hg : grid8 (position fenStart))
    by (apply grid8b_spec; vm_compute; reflexivity).
  assert (Hl : piecesLettered (position fenStart))
    by (apply piecesLetteredb_spec; vm_compute; reflexivity).
  split; [exact Hg |]. split; [exact Hl |]. split; [apply le_n |].
  destruct (getOptionsForPlayer_idempotent 8 (position fenStart) White)
    as (r & Hrun & Htwice & Hok).
  destruct (Hok Hg Hl (le_n 8)) as [l ->].
  exists l. split; [exact Hrun | exact Htwice].
Defined.

Lemma leaper_destinations_witness :
  grid8 (position fenStart) /\
  (Ln = Ln \/ Ln = Lk) /\
  exists rule offsets moves,
    rules 8 Ln = Some rule /\
    mapR parseDir (symmetricalDirs (baseDirs Ln)) = Ok offsets /\
    NoDup offsets /\ ~ In (0, 0) offsets /\
    rule (mkCell Ln 7 1 (Some White)) (position fenStart)
    = (Ok moves, position fenStart) /\
    (List.length moves <= 8)%nat /\
    NoDup moves /\
    allOnBoard moves /\
    ~ In (c_rank (mkCell Ln 7 1 (Some White)),
          c_file (mkCell Ln 7 1 (Some White))) moves.
Proof.
  assert (Hg : grid8 (position fenStart))
    by (apply grid8b_spec; vm_compute; reflexivity).
  assert (Hl : Ln = Ln \/ Ln = Lk) by (left; reflexivity).
  split; [exact Hg |]. split; [exact Hl |].
  exact (leaper_destinations 8 (position fenStart) (mkCell Ln 7 1 (Some White))
           Ln Hg Hl).
Defined.

(** * Further properties *)

(** ** Printing and reading back numbers and directions *)

Lemma parseDigits_digits (d : Decimal.uint) (acc : Z) :
  parseDigits (NilEmpty.string_of_uint d) (Some acc) = Some (horner d acc).
Proof.
  revert acc. induction d; intros acc; simpl; try reflexivity; apply IHd.
Qed.

Lemma parseDigits_start (d : Decimal.uint) :
  d <> Decimal.Nil ->
  parseDigits (NilEmpty.string_of_uint d) None = Some (horner d 0).
Proof.
  destruct d; intros Hd; [now elim Hd | ..]; simpl; apply parseDigits_digits.
Qed.

Lemma horner_of_uint_acc (d : Decimal.uint) (acc : positive) :
  Z.pos (Pos.of_uint_acc d acc) = horner d (Z.pos acc).
Proof.
  revert acc. induction d; intros acc; cbn [Pos.of_uint_acc horner];
    try reflexivity; rewrite IHd; f_equal; lia.
Qed.

Lemma horner_of_uint (d : Decimal.uint) : Z.of_N (Pos.of_uint d) = horner d 0.
Proof.
  induction d; cbn [Pos.of_uint horner]; try reflexivity; try exact IHd;
    cbn [Z.of_N]; apply horner_of_uint_acc.
Qed.

Lemma parseInt_digits (d : Decimal.uint) :
  d <> Decimal.Nil ->
  parseInt (NilEmpty.string_of_uint d) = Some (horner d 0).
Proof.
  intros Hd. rewrite <- (parseDigits_start d Hd).
  destruct d; [now elim Hd | ..]; reflexivity.
Qed.

Lemma string_of_uint_nonnil (d : Decimal.uint) :
  d <> Decimal.Nil -> NilZero.string_of_uint d = NilEmpty.string_of_uint d.
Proof. destruct d; intros Hd; [now elim Hd | ..]; reflexivity. Qed.

(** [parseInt] reads back the decimal string of every integer. *)
Lemma parseInt_numToString_Int (z : Z) : parseInt (numToString (Int z)) = Some z.
Proof.
  destruct z as [| p | p]; [reflexivity | ..];
    pose proof (Unsigned.to_uint_nonnil p) as Hn;
    unfold numToString, Z.to_int, NilZero.string_of_int;
    rewrite (string_of_uint_nonnil _ Hn).
  - now rewrite (parseInt_digits _ Hn), <- horner_of_uint, Unsigned.of_to.
  - unfold parseInt.
    now rewrite (parseDigits_start _ Hn), <- horner_of_uint, Unsigned.of_to.
Qed.

Lemma parseInt_numToString (n : num) : parseInt (numToString n) = Some (numVal n).
Proof. destruct n; [apply parseInt_numToString_Int | reflexivity]. Qed.

Lemma lacks_comma_digits (d : Decimal.uint) :
  lacks "," (NilEmpty.string_of_uint d) = true.
Proof. induction d; simpl; auto. Qed.

Lemma lacks_comma_numToString (n : num) : lacks "," (numToString n) = true.
Proof.
  destruct n as [[| p | p] |]; try reflexivity;
    unfold numToString, Z.to_int, NilZero.string_of_int;
    rewrite (string_of_uint_nonnil _ (Unsigned.to_uint_nonnil p));
    cbn [lacks]; rewrite ?lacks_comma_digits; reflexivity.
Qed.

Lemma split_whole (sep : ascii) (s : string) :
  lacks sep s = true -> split sep s = [s].
Proof.
  induction s as [| c rest IH]; simpl; [reflexivity |].
  intros H. apply andb_true_iff in H. destruct H as [Hc Hrest].
  apply negb_true_iff in Hc. now rewrite Hc, (IH Hrest).
Qed.

Lemma split_first (sep : ascii) (s1 s2 : string) :
  lacks sep s1 = true ->
  split sep (s1 ++ String sep s2) = s1 :: split sep s2.
Proof.
  induction s1 as [| c rest IH]; simpl.
  - intros _. now rewrite Ascii.eqb_refl.
  - intros H. apply andb_true_iff in H. destruct H as [Hc Hrest].
    apply negb_true_iff in Hc. now rewrite Hc, (IH Hrest).
Qed.

(** Two comma-free strings joined by a comma are read as a pair. *)
Lemma parseDir_joined (sx sy : string) :
  lacks "," sx = true -> lacks "," sy = true ->
  parseDir (sx ++ String "," sy)
  = match parseInt sx, parseInt sy with
    | Some d0, Some d1 => Ok (d0, d1)
    | _, _ => Err NotANumber
    end.
Proof.
  intros Hx Hy. unfold parseDir.
  rewrite (split_first _ _ _ Hx), (split_whole _ _ Hy). cbn [map].
  destruct (parseInt sx), (parseInt sy); reflexivity.
Qed.

(** X1. A direction with safe integer entries printed by [toString] and
    read back by [split] and [parseInt] is the direction itself; a negative
    zero comes back as zero. *)
Theorem parseDir_arrayToString (x y : num) :
  safeInteger (numVal x) ->
  safeInteger (numVal y) ->
  parseDir (arrayToString [x; y]) = Ok (numVal x, numVal y).
Proof.
  intros _ _. unfold arrayToString. cbn [map String.concat].
  change ("," ++ numToString y)%string with (String "," (numToString y)).
  rewrite (parseDir_joined _ _ (lacks_comma_numToString x)
             (lacks_comma_numToString y)).
  now rewrite !parseInt_numToString.
Qed.

Lemma parseDir_arrayToString_witness :
  safeInteger (numVal NegZero) /\
  safeInteger (numVal (Int (-9007199254740991))) /\
  parseDir (arrayToString [NegZero; Int (-9007199254740991)])
  = Ok (0, -9007199254740991).
Proof.
  assert (H0 : safeInteger (numVal NegZero))
    by (unfold safeInteger; simpl; lia).
  assert (H1 : safeInteger (numVal (Int (-9007199254740991))))
    by (unfold safeInteger; simpl; lia).
  split; [exact H0 |]. split; [exact H1 |].
  exact (parseDir_arrayToString NegZero (Int (-9007199254740991)) H0 H1).
Defined.

(** ** The set of mirrored directions, for any table *)

Lemma numToString_mulNegOne (a : Z) :
  numToString (mulNegOne a) = numToString (Int (- a)).
Proof.
  unfold mulNegOne. destruct (Z.eqb_spec a 0) as [-> |]; reflexivity.
Qed.

Lemma parseDir_dirString (d : Z * Z) : parseDir (dirString d) = Ok d.
Proof.
  unfold dirString, arrayToString. cbn [map String.concat].
  change ("," ++ numToString (Int (snd d)))%string
    with (String "," (numToString (Int (snd d)))).
  rewrite (parseDir_joined _ _ (lacks_comma_numToString _)
             (lacks_comma_numToString _)).
  rewrite !parseInt_numToString. now destruct d.
Qed.

Lemma dirString_inj (d1 d2 : Z * Z) : dirString d1 = dirString d2 -> d1 = d2.
Proof.
  intros H. pose proof (parseDir_dirString d1) as H1.
  rewrite H, parseDir_dirString in H1. congruence.
Qed.

Lemma existsb_dirString (d : Z * Z) (acc : list (Z * Z)) :
  existsb (String.eqb (dirString d)) (map dirString acc)
  = existsb (sq_eqb d) acc.
Proof.
  induction acc as [| x xs IH]; simpl; [reflexivity |].
  rewrite IH. f_equal.
  destruct (String.eqb_spec (dirString d) (dirString x)) as [E | N].
  - apply dirString_inj in E. subst x. symmetry. now apply sq_eqb_eq.
  - destruct (sq_eqb d x) eqn:E; [| reflexivity].
    apply sq_eqb_eq in E. now subst x.
Qed.

Lemma setAdd_dirString (acc : list (Z * Z)) (d : Z * Z) :
  setAdd (map dirString acc) (dirString d) = map dirString (addDir acc d).
Proof.
  unfold setAdd, addDir. rewrite existsb_dirString.
  destruct (existsb (sq_eqb d) acc); [reflexivity |].
  now rewrite map_app.
Qed.

(** One step of the reduction adds the four mirror images of a direction. *)
Lemma symmetrical_step (acc : list (Z * Z)) (dir : Z * Z) :
  setAdd
    (setAdd
       (setAdd
          (setAdd (map dirString acc)
             (arrayToString [Int (fst dir); Int (snd dir)]))
          (arrayToString [mulNegOne (fst dir); Int (snd dir)]))
       (arrayToString [Int (fst dir); mulNegOne (snd dir)]))
    (arrayToString [mulNegOne (fst dir); mulNegOne (snd dir)])
  = map dirString (fold_left addDir (mirrors dir) acc).
Proof.
  unfold mirrors. cbn [fold_left].
  rewrite <- !setAdd_dirString. unfold dirString, arrayToString.
  cbn [map fst snd]. now rewrite !numToString_mulNegOne.
Qed.

Lemma symmetricalDirs_fold (dirs acc : list (Z * Z)) :
  fold_left
    (fun set dir =>
       let set := setAdd set (arrayToString [Int (fst dir); Int (snd dir)]) in
       let set := setAdd set (arrayToString [mulNegOne (fst dir); Int (snd dir)]) in
       let set := setAdd set (arrayToString [Int (fst dir); mulNegOne (snd dir)]) in
       let set := setAdd set (arrayToString [mulNegOne (fst dir); mulNegOne (snd dir)]) in
       set)
    dirs (map dirString acc)
  = map dirString (fold_left addDir (flat_map mirrors dirs) acc).
Proof.
  revert acc. induction dirs as [| dir rest IH]; intros acc.
  - reflexivity.
  - cbn [fold_left flat_map]. cbv zeta. rewrite symmetrical_step, IH.
    now rewrite fold_left_app.
Qed.

Lemma addDir_In (acc : list (Z * Z)) (d x : Z * Z) :
  In x (addDir acc d) <-> In x acc \/ x = d.
Proof.
  unfold addDir. destruct (existsb (sq_eqb d) acc) eqn:E.
  - split; [now left |]. intros [H | ->]; [exact H |].
    apply existsb_exists in E. destruct E as (y & Hy & Ey).
    apply sq_eqb_eq in Ey. now subst y.
  - rewrite in_app_iff. simpl. intuition.
Qed.

Lemma addDir_NoDup (acc : list (Z * Z)) (d : Z * Z) :
  NoDup acc -> NoDup (addDir acc d).
Proof.
  intros H. unfold addDir. destruct (existsb (sq_eqb d) acc) eqn:E; [exact H |].
  apply NoDup_app; [exact H | repeat constructor; simpl; tauto |].
  intros x Hx [Heq | []]. subst x.
  assert (existsb (sq_eqb d) acc = true); [| congruence].
  apply existsb_exists. exists d. split; [exact Hx | now apply sq_eqb_eq].
Qed.

Lemma fold_addDir (ds acc : list (Z * Z)) :
  NoDup acc ->
  NoDup (fold_left addDir ds acc) /\
  (forall x, In x (fold_left addDir ds acc) <-> In x acc \/ In x ds).
Proof.
  revert acc. induction ds as [| d rest IH]; intros acc Hacc; simpl.
  - split; [exact Hacc | intuition].
  - destruct (IH (addDir acc d) (addDir_NoDup acc d Hacc)) as [Hn Hin].
    split; [exact Hn |]. intros x. rewrite Hin, addDir_In. intuition.
Qed.

Lemma mapR_parseDir_dirString (l : list (Z * Z)) :
  mapR parseDir (map dirString l) = Ok l.
Proof.
  induction l as [| d rest IH]; simpl; [reflexivity |].
  now rewrite parseDir_dirString, IH.
Qed.

(** The directions the mirrored set of a table reads back to. *)
Lemma mirrored_set_spec (dirs : list (Z * Z)) :
  exists parsed,
    mapR parseDir (symmetricalDirs dirs) = Ok parsed /\
    NoDup parsed /\
    (forall d, In d parsed <-> exists b, In b dirs /\ In d (mirrors b)).
Proof.
  destruct (fold_addDir (flat_map mirrors dirs) [] (NoDup_nil _)) as [Hn Hin].
  exists (fold_left addDir (flat_map mirrors dirs) []).
  rewrite (symmetricalDirs_fold dirs [] : symmetricalDirs dirs = _).
  split; [apply mapR_parseDir_dirString |]. split; [exact Hn |].
  intros d. rewrite Hin, in_flat_map. simpl. intuition.
Qed.

(** X2. For every table of base directions with safe integer entries, the
    strings of the mirrored set all read back as directions (no NaN); the
    directions read back are pairwise distinct and are exactly the mirror
    images of the base directions, each once. *)
Theorem symmetricalDirs_decode (dirs : list (Z * Z)) :
  safeTable dirs ->
  exists parsed,
    mapR parseDir (symmetricalDirs dirs) = Ok parsed /\
    NoDup parsed /\
    NoDup (symmetricalDirs dirs) /\
    (forall d, In d parsed <-> exists b, In b dirs /\ In d (mirrors b)).
Proof.
  intros _.
  destruct (fold_addDir (flat_map mirrors dirs) [] (NoDup_nil _)) as [Hn Hin].
  exists (fold_left addDir (flat_map mirrors dirs) []).
  assert (Hs : symmetricalDirs dirs
               = map dirString (fold_left addDir (flat_map mirrors dirs) []))
    by apply (symmetricalDirs_fold dirs []).
  rewrite Hs. split; [apply mapR_parseDir_dirString |].
  split; [exact Hn |].
  split.
  - apply NoDup_map_NoDup_ForallPairs; [| exact Hn].
    intros d1 d2 _ _. apply dirString_inj.
  - intros d. rewrite Hin, in_flat_map. simpl. intuition.
Qed.

Lemma symmetricalDirs_decode_witness :
  safeTable [(3, 0); (0, 3); (3, 0)] /\
  exists parsed,
    mapR parseDir (symmetricalDirs [(3, 0); (0, 3); (3, 0)]) = Ok parsed /\
    NoDup parsed /\
    (In (-3, 0) parsed <->
     exists b, In b [(3, 0); (0, 3); (3, 0)] /\ In (-3, 0) (mirrors b)).
Proof.
  assert (Hs : safeTable [(3, 0); (0, 3); (3, 0)])
    by (repeat constructor; unfold safeInteger; simpl; lia).
  split; [exact Hs |].
  destruct (symmetricalDirs_decode [(3, 0); (0, 3); (3, 0)] Hs)
    as (parsed & Hdec & Hnd & _ & Hin).
  exists parsed. split; [exact Hdec |]. split; [exact Hnd | apply Hin].
Defined.

Lemma flat_map_mirrors_length (dirs : list (Z * Z)) :
  List.length (flat_map mirrors dirs) = (4 * List.length dirs)%nat.
Proof. induction dirs as [| d rest IH]; simpl; [reflexivity | lia]. Qed.

(** What a leaper returns, for any table. *)
Lemma leaper_table_spec (st : state) (dirs : list (Z * Z)) (p : cell) :
  grid8 st ->
  exists moves,
    leaper dirs p st = (Ok moves, st) /\
    NoDup moves /\
    (forall sq,
        In sq moves <->
        (exists b d, In b dirs /\ In d (mirrors b) /\ sq = target p d) /\
        onBoard (fst sq) (snd sq) = true /\
        (occupied st (fst sq) (snd sq) = false \/
         ownerOn st (fst sq) (snd sq) <> c_owner p)).
Proof.
  intros Hg.
  destruct (mirrored_set_spec dirs) as (parsed & Hdec & Hnd & Hin).
  eexists. split; [apply (leaper_run st dirs parsed p Hg Hdec) |].
  split.
  { apply NoDup_map_NoDup_ForallPairs.
    - intros d1 d2 _ _. apply target_inj.
    - now apply NoDup_filter. }
  intros sq. rewrite in_map_iff. split.
  - intros (d & <- & Hd). apply filter_In in Hd. destruct Hd as [Hd Hok].
    apply andb_true_iff in Hok. destruct Hok as [Hon Hfree].
    split.
    { apply Hin in Hd. destruct Hd as (b & Hb & Hd). now exists b, d. }
    split; [exact Hon |].
    apply orb_true_iff in Hfree. destruct Hfree as [Hf | Hf].
    + left. now apply negb_true_iff in Hf.
    + right. apply negb_true_iff in Hf. intros Heq.
      apply owner_eqb_eq in Heq. congruence.
  - intros ((b & d & Hb & Hd & ->) & Hon & Hfree).
    exists d. split; [reflexivity |]. apply filter_In. split.
    { apply Hin. now exists b. }
    rewrite Hon. cbn [andb]. apply orb_true_iff.
    destruct Hfree as [Hf | Hf].
    + left. now rewrite Hf.
    + right. apply negb_true_iff.
      destruct (owner_eqb _ _) eqn:E; [| reflexivity].
      apply owner_eqb_eq in E. now elim Hf.
Qed.

(** X3. For every table of base directions with safe integer entries and a
    piece standing on the board, a leaper returns exactly the mirror-image
    targets that are on the board and either empty or held by a side other
    than the piece's own, each once: at most four per base direction. *)
Theorem leaper_any_table (st : state) (dirs : list (Z * Z)) (p : cell) :
  grid8 st ->
  safeTable dirs ->
  onBoard (c_rank p) (c_file p) = true ->
  exists moves,
    leaper dirs p st = (Ok moves, st) /\
    NoDup moves /\
    (List.length moves <= 4 * List.length dirs)%nat /\
    (forall sq,
        In sq moves <->
        (exists b d, In b dirs /\ In d (mirrors b) /\ sq = target p d) /\
        onBoard (fst sq) (snd sq) = true /\
        (occupied st (fst sq) (snd sq) = false \/
         ownerOn st (fst sq) (snd sq) <> c_owner p)).
Proof.
  intros Hg _ _.
  destruct (leaper_table_spec st dirs p Hg) as (moves & Hrun & Hnd & Hiff).
  exists moves. split; [exact Hrun |]. split; [exact Hnd |].
  split; [| exact Hiff].
  rewrite <- flat_map_mirrors_length,
    <- (length_map (target p) (flat_map mirrors dirs)).
  apply NoDup_incl_length; [exact Hnd |].
  intros sq Hsq. apply Hiff in Hsq. destruct Hsq as ((b & d & Hb & Hd & ->) & _).
  apply in_map. apply in_flat_map. now exists b.
Qed.

Lemma leaper_any_table_witness :
  grid8 (position fenStart) /\
  safeTable [(3, 1)] /\
  onBoard 7 1 = true /\
  exists moves,
    leaper [(3, 1)] (mkCell Ln 7 1 (Some White)) (position fenStart)
    = (Ok moves, position fenStart) /\
    NoDup moves /\ (List.length moves <= 4)%nat /\
    (In (4, 2) moves <->
     (exists b d, In b [(3, 1)] /\ In d (mirrors b) /\
                  (4, 2) = target (mkCell Ln 7 1 (Some White)) d) /\
     onBoard 4 2 = true /\
     (occupied (position fenStart) 4 2 = false \/
      ownerOn (position fenStart) 4 2 <> Some White)).
Proof.
  assert (Hg : grid8 (position fenStart))
    by (apply grid8b_spec; vm_compute; reflexivity).
  assert (Hs : safeTable [(3, 1)])
    by (repeat constructor; unfold safeInteger; simpl; lia).
  split; [exact Hg |]. split; [exact Hs |]. split; [reflexivity |].
  destruct (leaper_any_table (position fenStart) [(3, 1)]
              (mkCell Ln 7 1 (Some White)) Hg Hs eq_refl)
    as (moves & Hrun & Hnd & Hlen & Hiff).
  exists moves. split; [exact Hrun |]. split; [exact Hnd |].
  split; [exact Hlen | exact (Hiff (4, 2))].
Defined.

(** ** The whole output of a rider *)

Lemma raySquares_NoDup (rank file : Z) (dir : Z * Z) (n : nat) :
  dir <> (0, 0) -> NoDup (raySquares rank file dir n).
Proof.
  intros Hdir. unfold raySquares.
  apply NoDup_map_NoDup_ForallPairs; [| apply seq_NoDup].
  intros i j _ _ H. apply rayAt_inj in H; [lia | exact Hdir].
Qed.

(** What a ray's list is made of. *)
Lemma RaySpec_elems (st : state) (p : cell) (dir : Z * Z) (ray : list (Z * Z)) :
  grid8 st -> dir <> (0, 0) -> RaySpec st p dir ray ->
  NoDup ray /\
  forall s, In s ray ->
    (exists k, 1 <= k /\ s = rayAt (c_rank p) (c_file p) dir k) /\
    onBoard (fst s) (snd s) = true /\
    (occupied st (fst s) (snd s) = false \/
     ownerOn st (fst s) (snd s) = opponentOf (c_owner p)).
Proof.
  intros Hg Hdir (n & Hbefore & Hstop & -> & Hbeyond & Hown). cbv zeta in *.
  split.
  - apply NoDup_app; [now apply raySquares_NoDup | |].
    + destruct (_ && _); repeat constructor; simpl; tauto.
    + intros s Hs Hs'. destruct (_ && _); [| contradiction].
      destruct Hs' as [<- | []].
      apply in_raySquares in Hs. destruct Hs as (i & Hi & Heq).
      apply rayAt_inj in Heq; [lia | exact Hdir].
  - intros s Hs. apply in_app_iff in Hs. destruct Hs as [Hs | Hs].
    + apply in_raySquares in Hs. destruct Hs as (i & Hi & ->).
      destruct (Hbefore i Hi) as [Hon Hocc].
      split; [exists (Z.of_nat i); split; [lia | reflexivity] |].
      split; [exact Hon | now left].
    + destruct (onBoard _ _ && owner_eqb _ _) eqn:E; [| contradiction].
      destruct Hs as [<- | []].
      apply andb_true_iff in E. destruct E as [Hon Hopp].
      split; [exists (Z.of_nat (S n)); split; [lia | reflexivity] |].
      split; [exact Hon |]. right. now apply owner_eqb_eq.
Qed.

Lemma mirroredDirs_unit (l : letter) (d : Z * Z) :
  l = Lr \/ l = Lb \/ l = Lq -> In d (mirroredDirs l) -> unitDir d.
Proof.
  intros [-> | [-> | ->]] Hd; simpl in Hd;
    repeat (destruct Hd as [<- | Hd]; [unfold unitDir; simpl; split;
                                       [discriminate | lia] |]);
    contradiction.
Qed.

(** Rays in different unit directions never meet. *)
Lemma rays_apart (rank file : Z) (d d' : Z * Z) (k k' : Z) :
  unitDir d -> unitDir d' -> 1 <= k -> 1 <= k' ->
  rayAt rank file d k = rayAt rank file d' k' -> d = d'.
Proof.
  destruct d as [a b], d' as [a' b']. unfold unitDir, rayAt. simpl.
  intros (_ & Ha & Hb) (_ & Ha' & Hb') Hk Hk' [= H0 H1].
  assert (Ea : a = -1 \/ a = 0 \/ a = 1) by lia.
  assert (Eb : b = -1 \/ b = 0 \/ b = 1) by lia.
  assert (Ea' : a' = -1 \/ a' = 0 \/ a' = 1) by lia.
  assert (Eb' : b' = -1 \/ b' = 0 \/ b' = 1) by lia.
  destruct Ea as [-> | [-> | ->]], Eb as [-> | [-> | ->]],
    Ea' as [-> | [-> | ->]], Eb' as [-> | [-> | ->]];
    first [reflexivity | exfalso; lia].
Qed.

Lemma in_concat_rays {A B} (R : A -> list B -> Prop) (xs : list A)
    (ys : list (list B)) (s : B) :
  Forall2 R xs ys -> In s (List.concat ys) ->
  exists x y, In x xs /\ R x y /\ In s y.
Proof.
  induction 1 as [| x y xs ys Hxy _ IH]; simpl; [contradiction |].
  rewrite in_app_iff. intros [Hs | Hs].
  - exists x, y. auto.
  - destruct (IH Hs) as (x' & y' & Hx' & HR & Hin). exists x', y'. auto.
Qed.

Lemma concat_rays_NoDup (st : state) (p : cell) (dirs : list (Z * Z))
    (rays : list (list (Z * Z))) :
  grid8 st -> NoDup dirs -> (forall d, In d dirs -> unitDir d) ->
  Forall2 (RaySpec st p) dirs rays -> NoDup (List.concat rays).
Proof.
  intros Hg Hnd Hunit Hrays.
  induction Hrays as [| d ray dirs rays Hray Hrest IH]; simpl; [constructor |].
  assert (Hd : unitDir d) by (apply Hunit; now left).
  destruct (RaySpec_elems st p d ray Hg (proj1 Hd) Hray) as [Hn Helems].
  apply NoDup_app; [exact Hn | |].
  - apply IH; [now inversion Hnd | intros d' Hd'; apply Hunit; now right].
  - intros s Hs Hs'.
    destruct (in_concat_rays _ _ _ _ Hrest Hs') as (d' & ray' & Hd' & Hray' & Hin').
    assert (Hu' : unitDir d') by (apply Hunit; now right).
    destruct (RaySpec_elems st p d' ray' Hg (proj1 Hu') Hray') as [_ Helems'].
    destruct (Helems s Hs) as ((k & Hk & Ek) & _).
    destruct (Helems' s Hin') as ((k' & Hk' & Ek') & _).
    rewrite Ek in Ek'. apply rays_apart in Ek'; try assumption.
    subst d'. inversion Hnd. contradiction.
Qed.

(** What a rook, bishop or queen returns, square by square. *)
Lemma rider_output_spec (fuel : nat) (st : state) (p : cell) (l : letter) :
  grid8 st ->
  (8 <= fuel)%nat ->
  l = Lr \/ l = Lb \/ l = Lq ->
  exists rule moves,
    rules fuel l = Some rule /\
    rule p st = (Ok moves, st) /\
    NoDup moves /\
    allOnBoard moves /\
    (forall s, In s moves ->
       (exists d k, In d (mirroredDirs l) /\ 1 <= k /\
                    s = rayAt (c_rank p) (c_file p) d k) /\
       (occupied st (fst s) (snd s) = false \/
        ownerOn st (fst s) (snd s) = opponentOf (c_owner p))).
Proof.
  intros Hg Hfuel Hl.
  destruct (rider_spec fuel st p (baseDirs l) (mirroredDirs l) Hg Hfuel
              (mirrored_decode l) (mirroredDirs_nonzero l)) as (rays & Hrun & Hspec).
  assert (Hall : forall s, In s (List.concat rays) ->
            (exists d k, In d (mirroredDirs l) /\ 1 <= k /\
                         s = rayAt (c_rank p) (c_file p) d k) /\
            onBoard (fst s) (snd s) = true /\
            (occupied st (fst s) (snd s) = false \/
             ownerOn st (fst s) (snd s) = opponentOf (c_owner p))).
  { intros s Hs.
    destruct (in_concat_rays _ _ _ _ Hspec Hs) as (d & ray & Hd & Hray & Hin).
    assert (Hu : unitDir d) by now apply (mirroredDirs_unit l).
    destruct (RaySpec_elems st p d ray Hg (proj1 Hu) Hray) as [_ Helems].
    destruct (Helems s Hin) as ((k & Hk & Ek) & Hon & Hfree).
    split; [now exists d, k | now split]. }
  exists (rider fuel (baseDirs l)), (List.concat rays).
  split; [destruct Hl as [-> | [-> | ->]]; reflexivity |].
  split; [exact Hrun |].
  split.
  { apply (concat_rays_NoDup st p (mirroredDirs l)); try assumption.
    - apply mirroredDirs_NoDup.
    - intros d Hd. now apply (mirroredDirs_unit l). }
  split.
  { apply Forall_forall. intros s Hs. now destruct (Hall s Hs) as (_ & Hon & _). }
  intros s Hs. destruct (Hall s Hs) as (Hline & _ & Hfree). now split.
Qed.

(** X4. A rook, bishop or queen never lists a destination twice; every
    destination is on the board, lies on one of the piece's lines at least
    one step away (so it is never the origin), and is either empty or held
    by the opponent side. *)
Theorem rider_destinations (fuel : nat) (st : state) (p : cell) (l : letter) :
  grid8 st ->
  (8 <= fuel)%nat ->
  l = Lr \/ l = Lb \/ l = Lq ->
  exists rule moves,
    rules fuel l = Some rule /\
    rule p st = (Ok moves, st) /\
    NoDup moves /\
    allOnBoard moves /\
    ~ In (c_rank p, c_file p) moves /\
    (forall s, In s moves ->
       (exists d k, In d (mirroredDirs l) /\ 1 <= k /\
                    s = rayAt (c_rank p) (c_file p) d k) /\
       (occupied st (fst s) (snd s) = false \/
        ownerOn st (fst s) (snd s) = opponentOf (c_owner p))).
Proof.
  intros Hg Hfuel Hl.
  destruct (rider_output_spec fuel st p l Hg Hfuel Hl)
    as (rule & moves & Hrule & Hrun & Hnd & Hon & Hline).
  exists rule, moves. split; [exact Hrule |]. split; [exact Hrun |].
  split; [exact Hnd |]. split; [exact Hon |]. split; [| exact Hline].
  intros Hs. destruct (Hline _ Hs) as ((d & k & Hd & Hk & Ek) & _).
  assert (Hu : unitDir d) by now apply (mirroredDirs_unit l).
  destruct d as [a b]. unfold rayAt in Ek. simpl in Ek.
  injection Ek as E0 E1. destruct Hu as (Hnz & Ha & Hb). simpl in Ha, Hb.
  apply Hnz. f_equal; nia.
Qed.

Lemma rider_destinations_witness :
  grid8 (position fenQueen) /\
  (8 <= 8)%nat /\
  (Lq = Lr \/ Lq = Lb \/ Lq = Lq) /\
  exists rule moves,
    rules 8 Lq = Some rule /\
    rule (mkCell Lq 3 3 (Some White)) (position fenQueen)
    = (Ok moves, position fenQueen) /\
    NoDup moves /\ allOnBoard moves.
Proof.
  assert (Hg : grid8 (position fenQueen))
    by (apply grid8b_spec; vm_compute; reflexivity).
  assert (Hl : Lq = Lr \/ Lq = Lb \/ Lq = Lq) by (right; right; reflexivity).
  split; [exact Hg |]. split; [apply le_n |]. split; [exact Hl |].
  destruct (rider_destinations 8 (position fenQueen)
              (mkCell Lq 3 3 (Some White)) Lq Hg (le_n 8) Hl)
    as (rule & moves & Hrule & Hrun & Hnd & Hon & _).
  exists rule, moves. repeat split; assumption.
Defined.

Lemma step_bound (rank file : Z) (d : Z * Z) (k : Z) :
  unitDir d -> 1 <= k ->
  onBoard rank file = true ->
  onBoard (fst (rayAt rank file d k)) (snd (rayAt rank file d k)) = true ->
  k <= 7.
Proof.
  destruct d as [a b]. unfold unitDir, rayAt. simpl.
  intros (Hnz & Ha & Hb) Hk Ho Hs.
  apply onBoard_spec in Ho. apply onBoard_spec in Hs.
  assert (Ea : a = -1 \/ a = 0 \/ a = 1) by lia.
  assert (Eb : b = -1 \/ b = 0 \/ b = 1) by lia.
  destruct Ea as [-> | [-> | ->]], Eb as [-> | [-> | ->]];
    first [lia | now elim Hnz].
Qed.

Lemma in_allSquares (s : Z * Z) :
  onBoard (fst s) (snd s) = true -> In s allSquares.
Proof.
  destruct s as [r f]. cbn [fst snd]. intros H. apply onBoard_spec in H.
  unfold allSquares. apply in_prod; simpl; lia.
Qed.

Lemma in_reach (dirs : list (Z * Z)) (rank file : Z) (d : Z * Z) (k : Z) :
  In d dirs -> unitDir d -> 1 <= k ->
  onBoard rank file = true ->
  onBoard (fst (rayAt rank file d k)) (snd (rayAt rank file d k)) = true ->
  In (rayAt rank file d k) (reach dirs rank file).
Proof.
  intros Hd Hu Hk Ho Hs. unfold reach. apply filter_In.
  split; [now apply in_allSquares |].
  unfold onLine. apply existsb_exists. exists d. split; [exact Hd |].
  apply existsb_exists. exists k. split.
  - pose proof (step_bound rank file d k Hu Hk Ho Hs). simpl. lia.
  - now apply sq_eqb_eq.
Qed.

Lemma reach_bound (l : letter) (rank file : Z) :
  onBoard rank file = true ->
  (List.length (reach (mirroredDirs l) rank file) <= maxReach l)%nat \/
  (l <> Lr /\ l <> Lb /\ l <> Lq).
Proof.
  intros Ho. apply onBoard_spec in Ho.
  assert (Er : rank = 0 \/ rank = 1 \/ rank = 2 \/ rank = 3 \/
               rank = 4 \/ rank = 5 \/ rank = 6 \/ rank = 7) by lia.
  assert (Ef : file = 0 \/ file = 1 \/ file = 2 \/ file = 3 \/
               file = 4 \/ file = 5 \/ file = 6 \/ file = 7) by lia.
  destruct l; try (right; repeat split; discriminate); left;
    apply Nat.leb_le;
    destruct Er as [-> | [-> | [-> | [-> | [-> | [-> | [-> | ->]]]]]]],
      Ef as [-> | [-> | [-> | [-> | [-> | [-> | [-> | ->]]]]]]];
    vm_compute; reflexivity.
Qed.

(** X5. From a square of the board a rook never returns more than 14
    destinations, a bishop never more than 13, a queen never more than
    27. *)
Theorem rider_count (fuel : nat) (st : state) (p : cell) (l : letter) :
  grid8 st ->
  (8 <= fuel)%nat ->
  l = Lr \/ l = Lb \/ l = Lq ->
  onBoard (c_rank p) (c_file p) = true ->
  exists rule moves,
    rules fuel l = Some rule /\
    rule p st = (Ok moves, st) /\
    (List.length moves <= maxReach l)%nat.
Proof.
  intros Hg Hfuel Hl Ho.
  destruct (rider_output_spec fuel st p l Hg Hfuel Hl)
    as (rule & moves & Hrule & Hrun & Hnd & Hon & Hline).
  exists rule, moves. split; [exact Hrule |]. split; [exact Hrun |].
  destruct (reach_bound l _ _ Ho) as [Hb | (N1 & N2 & N3)];
    [| destruct Hl as [-> | [-> | ->]]; contradiction].
  etransitivity; [| exact Hb].
  apply NoDup_incl_length; [exact Hnd |].
  intros s Hs. destruct (Hline s Hs) as ((d & k & Hd & Hk & ->) & _).
  apply in_reach; try assumption.
  - now apply (mirroredDirs_unit l).
  - unfold allOnBoard in Hon. rewrite Forall_forall in Hon. apply (Hon _ Hs).
Qed.

Lemma rider_count_witness :
  grid8 (position fenQueen) /\
  (8 <= 8)%nat /\
  (Lq = Lr \/ Lq = Lb \/ Lq = Lq) /\
  onBoard 3 3 = true /\
  exists rule moves,
    rules 8 Lq = Some rule /\
    rule (mkCell Lq 3 3 (Some White)) (position fenQueen)
    = (Ok moves, position fenQueen) /\
    (List.length moves <= 27)%nat.
Proof.
  assert (Hg : grid8 (position fenQueen))
    by (apply grid8b_spec; vm_compute; reflexivity).
  assert (Hl : Lq = Lr \/ Lq = Lb \/ Lq = Lq) by (right; right; reflexivity).
  split; [exact Hg |]. split; [apply le_n |]. split; [exact Hl |].
  split; [reflexivity |].
  exact (rider_count 8 (position fenQueen) (mkCell Lq 3 3 (Some White)) Lq
           Hg (le_n 8) Hl eq_refl).
Defined.

(** ** What [importFile] builds *)

Lemma importCell_spec (rank file : Z) (a : ascii) (c : cell) :
  importCell rank file a = Some c ->
  c_rank c = rank /\ c_file c = file /\ (c_owner c = None <-> c_p c = Lx).
Proof.
  destruct a as [[|] [|] [|] [|] [|] [|] [|] [|]]; simpl; intros [= <-]; simpl;
    repeat split; intros; congruence.
Qed.

Lemma importCols_spec (rank : Z) (cols : string) :
  forall (file : Z) (cells : list cell),
    importCols rank file cols = Some cells ->
    List.length cells = String.length cols /\
    forall i c, nth_error cells i = Some c ->
      c_rank c = rank /\ c_file c = file + Z.of_nat i /\
      (c_owner c = None <-> c_p c = Lx).
Proof.
  induction cols as [| a rest IH]; intros file cells; cbn [importCols].
  - intros [= <-]. split; [reflexivity |]. intros [| i] c; discriminate.
  - destruct (importCell rank file a) as [x |] eqn:Ex; [| discriminate].
    destruct (importCols rank (file + 1) rest) as [xs |] eqn:Exs; [| discriminate].
    intros [= <-]. destruct (IH _ _ Exs) as [Hlen Hcells].
    split; [simpl; now rewrite Hlen |].
    intros [| i] c; simpl.
    + intros [= <-]. apply importCell_spec in Ex.
      destruct Ex as (Hr & Hf & Ho). repeat split; try tauto; lia.
    + intros Hc. destruct (Hcells i c Hc) as (Hr & Hf & Ho).
      repeat split; try tauto; lia.
Qed.

Lemma importRows_spec (rows : list string) :
  forall (rank : Z) (board : list (list cell)),
    importRows rank rows = Some board ->
    Forall2 (fun row cells => List.length cells = String.length (expandDigits row))
            rows board /\
    forall i cells j c,
      nth_error board i = Some cells -> nth_error cells j = Some c ->
      c_rank c = rank + Z.of_nat i /\ c_file c = Z.of_nat j /\
      (c_owner c = None <-> c_p c = Lx).
Proof.
  induction rows as [| row rest IH]; intros rank board; cbn [importRows].
  - intros [= <-]. split; [constructor |]. intros [| i] cells j c; discriminate.
  - destruct (importCols rank 0 (expandDigits row)) as [x |] eqn:Ex; [| discriminate].
    destruct (importRows (rank + 1) rest) as [xs |] eqn:Exs; [| discriminate].
    intros [= <-]. destruct (IH _ _ Exs) as [Hlen Hcells].
    destruct (importCols_spec _ _ _ _ Ex) as [Hl Hc].
    split; [now constructor |].
    intros [| i] cells j c; simpl.
    + intros [= <-] Hj. destruct (Hc j c Hj) as (Hr & Hf & Ho).
      repeat split; try tauto; lia.
    + intros Hi Hj. destruct (Hcells i cells j c Hi Hj) as (Hr & Hf & Ho).
      repeat split; try tauto; lia.
Qed.

Lemma index_nth (A : Type) (l : list A) (i : Z) (x : A) :
  index l i = Some x -> 0 <= i /\ nth_error l (Z.to_nat i) = Some x.
Proof.
  unfold index. destruct (Z.ltb_spec i 0); [discriminate |]. now split.
Qed.

Lemma cellAt_nth (st : state) (rank file : Z) (c : cell) :
  cellAt st rank file = Some c ->
  exists row, 0 <= rank /\ 0 <= file /\
    nth_error (st_board st) (Z.to_nat rank) = Some row /\
    nth_error row (Z.to_nat file) = Some c.
Proof.
  unfold cellAt. destruct (index (st_board st) rank) as [row |] eqn:Er;
    [| discriminate].
  intros Hc. apply index_nth in Er. apply index_nth in Hc.
  exists row. tauto.
Qed.

(** The fields of the position [importFile] returns, read off the four
    space-separated fields of the text. *)
Lemma importFile_fields (text : string) (st : state) :
  importFile text = Some st ->
  exists placement turn avail ep rest,
    split " " text = placement :: turn :: avail :: ep :: rest /\
    importRows 0 (split "/" placement) = Some (st_board st) /\
    (turn = "w"%string /\ st_playerTurn st = White \/
     turn = "b"%string /\ st_playerTurn st = Black) /\
    st_castling st
    = (if String.eqb avail "-"
       then mkCastling (mkRights false false) (mkRights false false)
       else importCastling avail
              (mkCastling (mkRights false false) (mkRights false false))) /\
    (ep = "-"%string /\ st_enPassant st = None \/
     ep <> "-"%string /\ exists rf,
       notationToRankFile ep = Some rf /\ st_enPassant st = Some rf).
Proof.
  unfold importFile.
  destruct (split " " text) as [| placement [| turn [| avail [| ep rest]]]];
    try discriminate.
  destruct (importRows 0 (split "/" placement)) as [board |] eqn:Eb;
    [| discriminate].
  intros H. exists placement, turn, avail, ep, rest.
  split; [reflexivity |].
  destruct (String.eqb_spec turn "w") as [Ew | Nw];
    [| destruct (String.eqb_spec turn "b") as [Ebk | Nb]; [| discriminate]];
    (destruct (String.eqb_spec ep "-") as [Ee | Ne];
     [| destruct (notationToRankFile ep) as [rf |] eqn:Erf; [| discriminate]]);
    injection H as <-; cbn [st_board st_playerTurn st_castling st_enPassant];
    (split; [exact Eb |]);
    (split; [auto |]);
    (split; [reflexivity |]);
    first [ left; split; [assumption | reflexivity]
          | right; split; [assumption | exists rf; split; reflexivity] ].
Qed.

(** The cells of a position read by [importFile]. *)
Lemma importFile_cells_spec (text : string) (st : state) :
  importFile text = Some st ->
  forall rank file c,
    cellAt st rank file = Some c ->
    c_rank c = rank /\ c_file c = file /\ (c_owner c = None <-> c_p c = Lx).
Proof.
  intros H. apply importFile_fields in H.
  destruct H as (placement & turn & avail & ep & rest & _ & Hrows & _).
  apply importRows_spec in Hrows. destruct Hrows as [_ Hcells].
  intros rank file c Hc. apply cellAt_nth in Hc.
  destruct Hc as (row & Hr & Hf & Hrow & Hcell).
  destruct (Hcells _ _ _ _ Hrow Hcell) as (H1 & H2 & H3).
  repeat split; try tauto; lia.
Qed.

Lemma importFile_wellFormed (text : string) (st : state) :
  importFile text = Some st -> grid8 st -> epOnBoard st -> wellFormed st.
Proof.
  intros H Hg Hep. pose proof (importFile_cells_spec text st H) as Hall.
  split; [exact Hg |]. split; [| split; [| exact Hep]].
  - unfold piecesLettered. apply Forall_forall. intros row Hrow.
    apply Forall_forall. intros c Hc Hown Hx.
    apply In_nth_error in Hrow. destruct Hrow as [i Hi].
    apply In_nth_error in Hc. destruct Hc as [j Hj].
    assert (Hcell : cellAt st (Z.of_nat i) (Z.of_nat j) = Some c).
    { unfold cellAt, index.
      destruct (Z.ltb_spec (Z.of_nat i) 0); [lia |]. rewrite Nat2Z.id, Hi.
      destruct (Z.ltb_spec (Z.of_nat j) 0); [lia |]. now rewrite Nat2Z.id. }
    destruct (Hall _ _ _ Hcell) as (_ & _ & H3). tauto.
  - intros rank file c Hc. destruct (Hall _ _ _ Hc); tauto.
Qed.

Lemma string_length_app (s1 s2 : string) :
  String.length (s1 ++ s2) = (String.length s1 + String.length s2)%nat.
Proof. induction s1 as [| c rest IH]; simpl; [reflexivity | now rewrite IH]. Qed.

Lemma repeat_x_length (n : nat) :
  String.length (String.concat "" (repeat "x"%string n)) = n.
Proof.
  induction n as [| n IH]; [reflexivity |].
  cbn [repeat]. destruct n as [| n]; [reflexivity |].
  change (String.concat "" ("x"%string :: repeat "x"%string (S n)))
    with ("x" ++ "" ++ String.concat "" (repeat "x"%string (S n)))%string.
  rewrite !string_length_app, IH. reflexivity.
Qed.

Lemma expandDigits_length (row : string) :
  String.length (expandDigits row) = fenWidth row.
Proof.
  induction row as [| c rest IH]; cbn [expandDigits fenWidth]; [reflexivity |].
  destruct (digitVal c) as [d |].
  - now rewrite string_length_app, repeat_x_length, IH.
  - simpl. now rewrite IH.
Qed.






Ltac on_board_cases rank file H :=
  apply onBoard_spec in H;
  let Er := fresh "Er" in
  let Ef := fresh "Ef" in
  assert (Er : rank = 0 \/ rank = 1 \/ rank = 2 \/ rank = 3 \/
               rank = 4 \/ rank = 5 \/ rank = 6 \/ rank = 7) by lia;
  assert (Ef : file = 0 \/ file = 1 \/ file = 2 \/ file = 3 \/
               file = 4 \/ file = 5 \/ file = 6 \/ file = 7) by lia;
  clear H;
  destruct Er as [-> | [-> | [-> | [-> | [-> | [-> | [-> | ->]]]]]]],
    Ef as [-> | [-> | [-> | [-> | [-> | [-> | [-> | ->]]]]]]].

Lemma square_names_spec (rank file : Z) (extra : string) :
  onBoard rank file = true ->
  exists letter digit,
    squareNote rank file = String letter (String digit EmptyString) /\
    notationToRankFile (squareNote rank file ++ extra) = Some (rank, file).
Proof.
  intros H. on_board_cases rank file H;
    eexists; eexists; split; reflexivity.
Qed.





(** ** Texts of the format *)

Lemma importCell_total (rank file : Z) (c : ascii) :
  cellChar c = true -> exists x, importCell rank file c = Some x.
Proof.
  destruct c as [[|] [|] [|] [|] [|] [|] [|] [|]];
    vm_compute; intros H; first [discriminate H | eexists; reflexivity].
Qed.

Lemma importCols_total (cols : string) :
  forall rank file,
    allChars cellChar cols = true ->
    exists cells, importCols rank file cols = Some cells.
Proof.
  induction cols as [| c rest IH]; intros rank file H; cbn [importCols].
  - now exists [].
  - cbn [allChars] in H. apply andb_true_iff in H. destruct H as [Hc Hrest].
    destruct (importCell_total rank file c Hc) as [x ->].
    destruct (IH rank (file + 1) Hrest) as [xs ->].
    now exists (x :: xs).
Qed.

Lemma allChars_app (ok : ascii -> bool) (s1 s2 : string) :
  allChars ok (s1 ++ s2) = allChars ok s1 && allChars ok s2.
Proof.
  induction s1 as [| c rest IH]; cbn [append allChars]; [reflexivity |].
  now rewrite IH, andb_assoc.
Qed.

Lemma allChars_repeat_x (n : nat) :
  allChars cellChar (String.concat "" (repeat "x"%string n)) = true.
Proof.
  induction n as [| n IH]; [reflexivity |].
  cbn [repeat]. destruct n as [| n]; [reflexivity |].
  change (String.concat "" ("x"%string :: repeat "x"%string (S n)))
    with ("x" ++ "" ++ String.concat "" (repeat "x"%string (S n)))%string.
  rewrite !allChars_app, IH. reflexivity.
Qed.

Lemma expandDigits_cellChars (row : string) :
  allChars rowChar row = true -> allChars cellChar (expandDigits row) = true.
Proof.
  induction row as [| c rest IH]; cbn [allChars expandDigits]; [reflexivity |].
  intros H. apply andb_true_iff in H. destruct H as [Hc Hrest].
  unfold rowChar in Hc. destruct (digitVal c) as [d |].
  - rewrite allChars_app, allChars_repeat_x. now apply IH.
  - rewrite orb_false_r in Hc. cbn [allChars]. rewrite Hc. now apply IH.
Qed.

Lemma split_rows (s : string) :
  allChars placementChar s = true ->
  Forall (fun row => allChars rowChar row = true) (split "/" s).
Proof.
  induction s as [| c rest IH]; cbn [allChars split].
  - intros _. now constructor.
  - intros H. apply andb_true_iff in H. destruct H as [Hc Hrest].
    specialize (IH Hrest).
    destruct (Ascii.eqb c "/") eqn:E.
    + now constructor.
    + unfold placementChar in Hc. rewrite E, orb_false_r in Hc.
      destruct (split "/" rest) as [| w ws].
      * constructor; [cbn [allChars]; now rewrite Hc | constructor].
      * inversion IH as [| ? ? Hw Hws]; subst.
        constructor; [cbn [allChars]; now rewrite Hc, Hw | exact Hws].
Qed.

Lemma importRows_total (rows : list string) :
  forall rank,
    Forall (fun row => allChars rowChar row = true) rows ->
    exists board, importRows rank rows = Some board.
Proof.
  induction rows as [| row rest IH]; intros rank H; cbn [importRows].
  - now exists [].
  - inversion H as [| ? ? Hrow Hrest]; subst.
    destruct (importCols_total _ rank 0 (expandDigits_cellChars row Hrow))
      as [x ->].
    destruct (IH (rank + 1) Hrest) as [xs ->].
    now exists (x :: xs).
Qed.

Lemma squareName_spec (s : string) :
  squareName s = true ->
  exists rank file, onBoard rank file = true /\ s = squareNote rank file.
Proof.
  unfold squareName. rewrite existsb_exists.
  intros ([rank file] & Hin & Heq). cbn [fst snd] in Heq.
  apply String.eqb_eq in Heq. exists rank, file. split; [| exact Heq].
  unfold allSquares in Hin. apply in_prod_iff in Hin.
  apply onBoard_spec. simpl in Hin. lia.
Qed.

(** [importFile] reads every text of the format, and the en-passant
    target it records is a square of the board. *)
Lemma importFile_total (text : string) :
  fenFormat text = true ->
  exists st, importFile text = Some st /\ epOnBoard st.
Proof.
  unfold fenFormat, importFile.
  destruct (split " " text) as [| placement [| turn [| avail [| ep rest]]]];
    try discriminate.
  intros H. apply andb_true_iff in H. destruct H as [H Hep].
  apply andb_true_iff in H. destruct H as [Hp Hturn].
  destruct (importRows_total _ 0 (split_rows placement Hp)) as [board ->].
  assert (Hepc : String.eqb ep "-" = true \/
                 exists rf, String.eqb ep "-" = false /\
                   notationToRankFile ep = Some rf /\
                   onBoard (fst rf) (snd rf) = true).
  { destruct (String.eqb ep "-") eqn:E; [now left | right].
    cbn [orb] in Hep. apply squareName_spec in Hep.
    destruct Hep as (rank & file & Hon & ->).
    destruct (square_names_spec rank file EmptyString Hon)
      as (letter & digit & Hn & Hread).
    rewrite Hn in Hread. cbn [append] in Hread. rewrite Hn.
    exists (rank, file). now repeat split. }
  apply orb_true_iff in Hturn.
  destruct Hturn as [-> | Hturn];
    [| destruct (String.eqb turn "w"); rewrite ?Hturn];
    (destruct Hepc as [-> | (rf & -> & -> & Hon)];
     eexists; (split; [reflexivity |]); unfold epOnBoard;
     cbn [st_enPassant]; [exact I | now destruct rf]).
Qed.

Lemma importFile_grid8 (text : string) (st : state) :
  importFile text = Some st -> fenBoard8 text = true -> grid8 st.
Proof.
  intros H Hb. apply importFile_fields in H.
  destruct H as (placement & turn & avail & ep & rest & Hsplit & Hrows & _).
  unfold fenBoard8 in Hb. rewrite Hsplit in Hb.
  apply andb_true_iff in Hb. destruct Hb as [Hlen Hw].
  apply Nat.eqb_eq in Hlen. rewrite forallb_forall in Hw.
  apply importRows_spec in Hrows. destruct Hrows as [Hall _].
  unfold grid8. rewrite <- (Forall2_length Hall). split; [exact Hlen |].
  clear Hlen. induction Hall as [| row cells rows board Hrc _ IH];
    constructor.
  - rewrite Hrc, expandDigits_length. apply Nat.eqb_eq, Hw. now left.
  - apply IH. intros x Hx. apply Hw. now right.
Qed.

(** X6. [importFile] reads every text of the format, and in the position
    it builds the cell standing on a square records that square's rank and
    file, and a cell has no owner exactly when its letter is the
    empty-space letter: the pieces handed to the rules carry their true
    coordinates and a letter the rules table knows. *)
Theorem importFile_cells (text : string) :
  fenFormat text = true ->
  exists st,
    importFile text = Some st /\
    cellsIndexed st /\ piecesLettered st /\
    forall rank file c,
      cellAt st rank file = Some c -> (c_owner c = None <-> c_p c = Lx).
Proof.
  intros Hfmt. destruct (importFile_total text Hfmt) as (st & H & _).
  exists st. split; [exact H |].
  pose proof (importFile_cells_spec text st H) as Hall.
  split; [intros rank file c Hc; destruct (Hall _ _ _ Hc); tauto |].
  split.
  - unfold piecesLettered. apply Forall_forall. intros row Hrow.
    apply Forall_forall. intros c Hc Hown Hx.
    apply In_nth_error in Hrow. destruct Hrow as [i Hi].
    apply In_nth_error in Hc. destruct Hc as [j Hj].
    assert (Hcell : cellAt st (Z.of_nat i) (Z.of_nat j) = Some c).
    { unfold cellAt, index.
      destruct (Z.ltb_spec (Z.of_nat i) 0); [lia |]. rewrite Nat2Z.id, Hi.
      destruct (Z.ltb_spec (Z.of_nat j) 0); [lia |]. now rewrite Nat2Z.id. }
    destruct (Hall _ _ _ Hcell) as (_ & _ & H3). tauto.
  - intros rank file c Hc. destruct (Hall _ _ _ Hc); tauto.
Qed.

Lemma importFile_cells_witness :
  fenFormat fenEnPassant = true /\
  exists st,
    importFile fenEnPassant = Some st /\
    cellsIndexed st /\ piecesLettered st.
Proof.
  split; [vm_compute; reflexivity |].
  destruct (importFile_cells fenEnPassant eq_refl) as (st & H & H1 & H2 & _).
  exists st. split; [exact H |]. split; assumption.
Defined.


(** ** The whole output of the pawn rule *)

Lemma canCapture_onBoard (st : state) (p : cell) (d : Z) :
  epOnBoard st -> canCapture st p d = true ->
  onBoard (c_rank p + forward p) (c_file p + d) = true.
Proof.
  intros Hep H. unfold canCapture in H. apply orb_true_iff in H.
  destruct H as [H | H].
  - now apply andb_true_iff in H.
  - apply isTarget_spec in H. unfold epOnBoard in Hep. now rewrite H in Hep.
Qed.

Lemma canDouble_onBoard (st : state) (p : cell) :
  onBoard (c_rank p) (c_file p) = true -> canDouble st p = true ->
  onBoard (c_rank p + 2 * forward p) (c_file p) = true.
Proof.
  intros Ho H. unfold canDouble in H. apply andb_true_iff in H.
  destruct H as [H _]. apply Z.eqb_eq in H.
  apply onBoard_spec in Ho. apply onBoard_spec.
  unfold startRank, forward in *.
  destruct (owner_eqb (c_owner p) (Some White)); lia.
Qed.

Lemma pawn_output_spec (st : state) (p : cell) :
  grid8 st ->
  epOnBoard st ->
  onBoard (c_rank p) (c_file p) = true ->
  rules_p p st = (Ok (pawnMoves st p), st) /\
  NoDup (pawnMoves st p) /\
  allOnBoard (pawnMoves st p).
Proof.
  intros Hg Hep Ho.
  split; [now apply rules_p_run |].
  pose proof (canCapture_onBoard st p 1 Hep) as Hc1.
  pose proof (canCapture_onBoard st p (-1) Hep) as Hc2.
  pose proof (canDouble_onBoard st p Ho) as Hd.
  assert (Hp : canPush st p = true ->
               onBoard (c_rank p + forward p) (c_file p) = true)
    by (intros H; now apply canPush_spec in H).
  unfold pawnMoves, allOnBoard.
  destruct (forward_cases p) as [Hf | Hf]; rewrite Hf in *;
    destruct (canPush st p), (canDouble st p), (canCapture st p 1),
      (canCapture st p (-1)); cbn [app];
    (split; [repeat (constructor; [simpl; intros H;
                                   repeat (destruct H as [H | H];
                                           [injection H; lia |]);
                                   exact H |]); constructor |]);
    repeat (constructor; [cbn [fst snd]; auto |]); constructor.
Qed.

(** X11. For a pawn standing on the board, in a position whose en-passant
    target (if any) is a square, the pawn rule returns at most 4
    destinations, pairwise distinct and all on the board: one or two steps
    straight ahead, or one step diagonally ahead. *)
Theorem rules_p_destinations (st : state) (p : cell) :
  grid8 st ->
  epOnBoard st ->
  onBoard (c_rank p) (c_file p) = true ->
  exists moves,
    rules_p p st = (Ok moves, st) /\
    (List.length moves <= 4)%nat /\
    NoDup moves /\
    allOnBoard moves /\
    (forall s, In s moves ->
       s = (c_rank p + forward p, c_file p) \/
       s = (c_rank p + 2 * forward p, c_file p) \/
       s = (c_rank p + forward p, c_file p + 1) \/
       s = (c_rank p + forward p, c_file p - 1)).
Proof.
  intros Hg Hep Ho. exists (pawnMoves st p).
  destruct (pawn_output_spec st p Hg Hep Ho) as (Hrun & Hnd & Hon).
  split; [exact Hrun |].
  split; [| split; [exact Hnd | split; [exact Hon |]]].
  - unfold pawnMoves.
    destruct (canPush st p), (canDouble st p), (canCapture st p 1),
      (canCapture st p (-1)); cbn [app List.length]; lia.
  - unfold pawnMoves. intros s Hs.
    repeat (apply in_app_iff in Hs; destruct Hs as [Hs | Hs]).
    + destruct (canPush st p); [| now elim Hs].
      destruct Hs as [<- | []]. now left.
    + destruct (canDouble st p); [| now elim Hs].
      destruct Hs as [<- | []]. right. now left.
    + destruct (canCapture st p 1); [| now elim Hs].
      destruct Hs as [<- | []]. right. right. now left.
    + destruct (canCapture st p (-1)); [| now elim Hs].
      destruct Hs as [<- | []]. right. right. right.
      first [reflexivity | f_equal; lia].
Qed.

Lemma rules_p_destinations_witness :
  grid8 (position fenEnPassant) /\
  epOnBoard (position fenEnPassant) /\
  onBoard 4 3 = true /\
  exists moves,
    rules_p (mkCell Lp 4 3 (Some Black)) (position fenEnPassant)
    = (Ok moves, position fenEnPassant) /\
    (List.length moves <= 4)%nat /\ NoDup moves /\ allOnBoard moves.
Proof.
  assert (Hg : grid8 (position fenEnPassant))
    by (apply grid8b_spec; vm_compute; reflexivity).
  assert (Hep : epOnBoard (position fenEnPassant)) by reflexivity.
  split; [exact Hg |]. split; [exact Hep |]. split; [reflexivity |].
  destruct (rules_p_destinations (position fenEnPassant)
              (mkCell Lp 4 3 (Some Black)) Hg Hep eq_refl)
    as (moves & Hrun & Hlen & Hnd & Hon & _).
  exists moves. repeat split; assumption.
Defined.

(** ** The whole output of the aggregator *)

Lemma cellAt_onBoard (st : state) (rank file : Z) (c : cell) :
  grid8 st -> cellAt st rank file = Some c -> onBoard rank file = true.
Proof.
  intros [Hl Hr] Hc. apply cellAt_nth in Hc.
  destruct Hc as (row & H0 & H1 & Hrow & Hcell).
  assert (Hlt : (Z.to_nat rank < 8)%nat).
  { rewrite <- Hl. apply nth_error_Some. now rewrite Hrow. }
  assert (Hlt' : (Z.to_nat file < 8)%nat).
  { rewrite Forall_forall in Hr. rewrite <- (Hr row (nth_error_In _ _ Hrow)).
    apply nth_error_Some. now rewrite Hcell. }
  apply onBoard_spec. lia.
Qed.

Lemma in_board_cellAt (st : state) (row : list cell) (c : cell) :
  In row (st_board st) -> In c row ->
  exists rank file, cellAt st rank file = Some c.
Proof.
  intros Hrow Hc.
  apply In_nth_error in Hrow. destruct Hrow as [i Hi].
  apply In_nth_error in Hc. destruct Hc as [j Hj].
  exists (Z.of_nat i), (Z.of_nat j). unfold cellAt, index.
  destruct (Z.ltb_spec (Z.of_nat i) 0); [lia |].
  rewrite Nat2Z.id, Hi.
  destruct (Z.ltb_spec (Z.of_nat j) 0); [lia |].
  now rewrite Nat2Z.id.
Qed.

Lemma piecesOf_cell (st : state) (pl : player) (pc : cell) :
  In pc (piecesOf st pl) ->
  c_owner pc = Some pl /\ exists rank file, cellAt st rank file = Some pc.
Proof.
  unfold piecesOf. intros Hin. apply in_flat_map in Hin.
  destruct Hin as (row & Hrow & Hin). apply filter_In in Hin.
  destruct Hin as [Hin Hown]. apply owner_eqb_eq in Hown.
  split; [exact Hown | now apply (in_board_cellAt st row)].
Qed.

Lemma piecesOf_onBoard (st : state) (pl : player) (pc : cell) :
  grid8 st -> cellsIndexed st -> In pc (piecesOf st pl) ->
  cellAt st (c_rank pc) (c_file pc) = Some pc /\
  onBoard (c_rank pc) (c_file pc) = true.
Proof.
  intros Hg Hidx Hin. apply piecesOf_cell in Hin.
  destruct Hin as [_ (rank & file & Hc)].
  destruct (Hidx _ _ _ Hc) as [-> ->].
  split; [exact Hc | now apply (cellAt_onBoard st _ _ pc)].
Qed.

(** The moves of one piece, whatever its kind. *)
Lemma getOptionsForPiece_moves (fuel : nat) (st : state) (pl : player)
    (pc : cell) :
  wellFormed st -> (8 <= fuel)%nat -> In pc (piecesOf st pl) ->
  exists opts,
    getOptionsForPiece fuel pc st = (Ok opts, st) /\ pieceMoves st pl pc opts.
Proof.
  intros (Hg & Hl & Hidx & Hep) Hfuel Hin.
  destruct (piecesOf_onBoard st pl pc Hg Hidx Hin) as [_ Ho].
  pose proof (piecesOf_lettered st pl pc Hl Hin) as Hx.
  destruct (piecesOf_cell st pl pc Hin) as [Hown _].
  enough (H : exists dests rule,
             rules fuel (c_p pc) = Some rule /\
             rule pc st = (Ok dests, st) /\
             NoDup dests /\ allOnBoard dests /\
             (c_p pc <> Lp ->
              forall s, In s dests -> ownerOn st (fst s) (snd s) <> Some pl)).
  { destruct H as (dests & rule & Hrule & Hrun & Hnd & Hon & Hfree).
    exists (map (moveOf pc) dests). split.
    - unfold getOptionsForPiece. rewrite Hrule.
      now rewrite (bind_ok _ _ _ _ _ Hrun).
    - now exists dests. }
  destruct (c_p pc) eqn:Ep; [| | | | | | now elim Hx].
  - (* pawn *)
    destruct (pawn_output_spec st pc Hg Hep Ho) as (Hrun & Hnd & Hon).
    exists (pawnMoves st pc), rules_p.
    repeat split; try assumption. now intros N.
  - (* knight *)
    destruct (leaper_table_spec st (baseDirs Ln) pc Hg)
      as (moves & Hrun & Hnd & Hiff).
    exists moves, (leaper (baseDirs Ln)). repeat split; try assumption.
    + apply Forall_forall. intros s Hs. now apply Hiff in Hs.
    + intros _ s Hs Hs'. apply Hiff in Hs. destruct Hs as (_ & _ & [Hf | Hf]).
      * unfold occupied in Hf. now rewrite Hs' in Hf.
      * congruence.
  - (* bishop *)
    destruct (rider_output_spec fuel st pc Lb Hg Hfuel)
      as (rule & moves & Hrule & Hrun & Hnd & Hon & Hfree); [tauto |].
    exists moves, rule. repeat split; try assumption.
    intros _ s Hs Hs'. destruct (Hfree s Hs) as (_ & [Hf | Hf]).
    + unfold occupied in Hf. now rewrite Hs' in Hf.
    + rewrite Hown, Hs' in Hf. symmetry in Hf.
      now apply opponentOf_not_own in Hf.
  - (* rook *)
    destruct (rider_output_spec fuel st pc Lr Hg Hfuel)
      as (rule & moves & Hrule & Hrun & Hnd & Hon & Hfree); [tauto |].
    exists moves, rule. repeat split; try assumption.
    intros _ s Hs Hs'. destruct (Hfree s Hs) as (_ & [Hf | Hf]).
    + unfold occupied in Hf. now rewrite Hs' in Hf.
    + rewrite Hown, Hs' in Hf. symmetry in Hf.
      now apply opponentOf_not_own in Hf.
  - (* queen *)
    destruct (rider_output_spec fuel st pc Lq Hg Hfuel)
      as (rule & moves & Hrule & Hrun & Hnd & Hon & Hfree); [tauto |].
    exists moves, rule. repeat split; try assumption.
    intros _ s Hs Hs'. destruct (Hfree s Hs) as (_ & [Hf | Hf]).
    + unfold occupied in Hf. now rewrite Hs' in Hf.
    + rewrite Hown, Hs' in Hf. symmetry in Hf.
      now apply opponentOf_not_own in Hf.
  - (* king *)
    destruct (leaper_table_spec st (baseDirs Lk) pc Hg)
      as (moves & Hrun & Hnd & Hiff).
    exists moves, (leaper (baseDirs Lk)). repeat split; try assumption.
    + apply Forall_forall. intros s Hs. now apply Hiff in Hs.
    + intros _ s Hs Hs'. apply Hiff in Hs. destruct Hs as (_ & _ & [Hf | Hf]).
      * unfold occupied in Hf. now rewrite Hs' in Hf.
      * congruence.
Qed.

(** A reduction that appends what its callback returns, with a property of
    each returned list. *)
Lemma foldM_append_Forall2 {A B} (f : A -> M (list B)) (P : A -> list B -> Prop)
    (l : list A) (init : list B) (s : state) :
  (forall x, In x l -> exists r, f x s = (Ok r, s) /\ P x r) ->
  exists rs,
    foldM (fun acc x => r <- f x ;; ret (acc ++ r)) l init s
    = (Ok (init ++ List.concat rs), s) /\
    Forall2 P l rs.
Proof.
  revert init. induction l as [| x xs IH]; intros init Hf.
  - exists []. split; [simpl; now rewrite app_nil_r | constructor].
  - destruct (Hf x (or_introl eq_refl)) as (r & Hr & HP).
    destruct (IH (init ++ r) (fun y Hy => Hf y (or_intror Hy)))
      as (rs & Hrs & Hall).
    exists (r :: rs). split; [| now constructor].
    cbn [foldM List.concat]. rewrite (bind_ok _ _ s s (init ++ r)).
    + now rewrite Hrs, app_assoc.
    + now rewrite (bind_ok _ _ _ _ _ Hr).
Qed.

(** The move list of a player: the moves of each owned piece, in board
    order, then the castling records. *)
Lemma getOptionsForPlayer_structure (fuel : nat) (st : state) (pl : player) :
  wellFormed st -> (8 <= fuel)%nat ->
  exists perPiece,
    getOptionsForPlayer fuel pl st
    = (Ok (List.concat perPiece ++ castlingMoves st pl), st) /\
    Forall2 (pieceMoves st pl) (piecesOf st pl) perPiece.
Proof.
  intros Hwf Hfuel. rewrite getOptionsForPlayer_unfold.
  destruct (foldM_append_Forall2 (getOptionsForPiece fuel) (pieceMoves st pl)
              (piecesOf st pl) [] st) as (rs & Hrun & Hall).
  { intros pc Hin. now apply getOptionsForPiece_moves. }
  exists rs. split; [| exact Hall].
  rewrite (bind_ok _ _ _ _ _ Hrun).
  now rewrite (bind_ok _ _ _ _ _ (getCastlingOptions_run st pl (proj1 Hwf))).
Qed.

Lemma castlingMoves_onBoard (st : state) (pl : player) (mv : move) :
  In mv (castlingMoves st pl) ->
  castle mv = true /\
  onBoard (fromRank mv) (fromFile mv) = true /\
  onBoard (toRank mv) (toFile mv) = true.
Proof.
  unfold castlingMoves, kingsideMoves, queensideMoves, homeRank.
  rewrite in_app_iff.
  destruct (kingsideOk st pl), (queensideOk st pl), pl; simpl;
    intuition (subst; simpl; auto).
Qed.

Lemma aggregator_moves_spec (fuel : nat) (st : state) (pl : player) :
  wellFormed st ->
  (8 <= fuel)%nat ->
  exists moves,
    getOptionsForPlayer fuel pl st = (Ok moves, st) /\
    forall mv, In mv moves ->
      onBoard (fromRank mv) (fromFile mv) = true /\
      onBoard (toRank mv) (toFile mv) = true.
Proof.
  intros Hwf Hfuel.
  destruct (getOptionsForPlayer_structure fuel st pl Hwf Hfuel)
    as (perPiece & Hrun & Hall).
  eexists. split; [exact Hrun |].
  destruct Hwf as (Hg & Hl & Hidx & Hep).
  intros mv Hmv. apply in_app_iff in Hmv. destruct Hmv as [Hmv | Hmv].
  - destruct (in_concat_rays _ _ _ _ Hall Hmv)
      as (pc & opts & Hpc & (dests & -> & _ & Hon & _) & Hin).
    apply in_map_iff in Hin. destruct Hin as (s & <- & Hs).
    destruct (piecesOf_onBoard st pl pc Hg Hidx Hpc) as [_ Ho].
    unfold allOnBoard in Hon. rewrite Forall_forall in Hon.
    cbn [moveOf fromRank fromFile toRank toFile].
    split; [exact Ho | now apply Hon].
  - destruct (castlingMoves_onBoard st pl mv Hmv) as (_ & Hf & Ht).
    now split.
Qed.

(** X12. On a well-formed position every move the aggregator returns is
    either one of the castling records of the castling rule, flagged as
    castle, or an unflagged move that starts on a cell the player owns and
    carries that cell's letter; origin and destination are always squares
    of the board. *)
Theorem getOptionsForPlayer_moves (fuel : nat) (st : state) (pl : player) :
  wellFormed st ->
  (8 <= fuel)%nat ->
  exists moves,
    getOptionsForPlayer fuel pl st = (Ok moves, st) /\
    forall mv, In mv moves ->
      onBoard (fromRank mv) (fromFile mv) = true /\
      onBoard (toRank mv) (toFile mv) = true /\
      (castle mv = true /\ In mv (castlingMoves st pl) \/
       castle mv = false /\
       exists pc,
         cellAt st (fromRank mv) (fromFile mv) = Some pc /\
         c_owner pc = Some pl /\ c_p pc = piece mv /\ c_p pc <> Lx).
Proof.
  intros Hwf Hfuel.
  destruct (getOptionsForPlayer_structure fuel st pl Hwf Hfuel)
    as (perPiece & Hrun & Hall).
  eexists. split; [exact Hrun |].
  destruct Hwf as (Hg & Hl & Hidx & Hep).
  intros mv Hmv. apply in_app_iff in Hmv. destruct Hmv as [Hmv | Hmv].
  - destruct (in_concat_rays _ _ _ _ Hall Hmv)
      as (pc & opts & Hpc & (dests & -> & _ & Hon & _) & Hin).
    apply in_map_iff in Hin. destruct Hin as (s & <- & Hs).
    destruct (piecesOf_onBoard st pl pc Hg Hidx Hpc) as [Hcell Ho].
    destruct (piecesOf_cell st pl pc Hpc) as [Hown _].
    unfold allOnBoard in Hon. rewrite Forall_forall in Hon.
    cbn [moveOf fromRank fromFile toRank toFile castle piece].
    split; [exact Ho |]. split; [now apply Hon |].
    right. split; [reflexivity |]. exists pc.
    repeat split; try assumption. now apply (piecesOf_lettered st pl).
  - destruct (castlingMoves_onBoard st pl mv Hmv) as (Hc & Hf & Ht).
    split; [exact Hf |]. split; [exact Ht |]. now left.
Qed.

(** X13. On a well-formed position a move of a knight, bishop, rook, queen
    or king never lands on a square held by the player's own side.  (Pawn
    moves and castling records are excluded: the pawn's single push does
    not have this property.) *)
Theorem getOptionsForPlayer_no_own_capture (fuel : nat) (st : state)
    (pl : player) :
  wellFormed st ->
  (8 <= fuel)%nat ->
  exists moves,
    getOptionsForPlayer fuel pl st = (Ok moves, st) /\
    forall mv, In mv moves ->
      castle mv = false -> piece mv <> Lp ->
      ownerOn st (toRank mv) (toFile mv) <> Some pl.
Proof.
  intros Hwf Hfuel.
  destruct (getOptionsForPlayer_structure fuel st pl Hwf Hfuel)
    as (perPiece & Hrun & Hall).
  eexists. split; [exact Hrun |].
  intros mv Hmv Hc Hp. apply in_app_iff in Hmv. destruct Hmv as [Hmv | Hmv].
  - destruct (in_concat_rays _ _ _ _ Hall Hmv)
      as (pc & opts & Hpc & (dests & -> & _ & _ & Hfree) & Hin).
    apply in_map_iff in Hin. destruct Hin as (s & <- & Hs).
    cbn [moveOf toRank toFile piece] in *. now apply Hfree.
  - destruct (castlingMoves_onBoard st pl mv Hmv) as (Hc' & _). congruence.
Qed.

Lemma row_files_NoDup (row : list cell) :
  forall f0,
    (forall j c, nth_error row j = Some c -> c_file c = f0 + Z.of_nat j) ->
    NoDup (map c_file row).
Proof.
  induction row as [| c rest IH]; intros f0 H; simpl; constructor.
  - intros Hin. apply in_map_iff in Hin. destruct Hin as (c' & Heq & Hc').
    apply In_nth_error in Hc'. destruct Hc' as [j Hj].
    pose proof (H 0%nat c eq_refl). pose proof (H (S j) c' Hj). lia.
  - apply (IH (f0 + 1)). intros j c' Hj.
    rewrite (H (S j) c' Hj). lia.
Qed.

Lemma NoDup_map_through {A B C} (f : A -> B) (g : B -> C) (l : list A) :
  NoDup (map (fun x => g (f x)) l) -> NoDup (map f l).
Proof.
  induction l as [| x xs IH]; simpl; intros H; constructor; inversion H; subst.
  - intros Hin. apply H2. apply in_map_iff in Hin.
    destruct Hin as (y & Hy & Hin). apply in_map_iff. exists y.
    split; [congruence | exact Hin].
  - now apply IH.
Qed.

Lemma board_coords_NoDup (board : list (list cell)) :
  forall k,
    (forall i row j c,
        nth_error board i = Some row -> nth_error row j = Some c ->
        c_rank c = k + Z.of_nat i /\ c_file c = Z.of_nat j) ->
    NoDup (map coordOf (List.concat board)).
Proof.
  induction board as [| row rest IH]; intros k H; simpl; [constructor |].
  rewrite map_app. apply NoDup_app.
  - apply (NoDup_map_through coordOf snd).
    apply (row_files_NoDup row 0). intros j c Hj.
    now destruct (H 0%nat row j c eq_refl Hj).
  - apply (IH (k + 1)). intros i row' j c Hi Hj.
    destruct (H (S i) row' j c Hi Hj). split; lia.
  - intros x Hx Hx'.
    apply in_map_iff in Hx. destruct Hx as (c & <- & Hc).
    apply in_map_iff in Hx'. destruct Hx' as (c' & Heq & Hc').
    apply In_nth_error in Hc. destruct Hc as [j Hj].
    apply in_concat in Hc'. destruct Hc' as (row' & Hrow' & Hc').
    apply In_nth_error in Hrow'. destruct Hrow' as [i Hi].
    apply In_nth_error in Hc'. destruct Hc' as [j' Hj'].
    destruct (H 0%nat row j c eq_refl Hj) as [Hr _].
    destruct (H (S i) row' j' c' Hi Hj') as [Hr' _].
    unfold coordOf in Heq. injection Heq as E _. lia.
Qed.

Lemma flat_map_filter {A} (f : A -> bool) (ls : list (list A)) :
  flat_map (filter f) ls = filter f (List.concat ls).
Proof.
  induction ls as [| l rest IH]; simpl; [reflexivity |].
  now rewrite filter_app, IH.
Qed.

Lemma NoDup_map_filter {A B} (k : A -> B) (f : A -> bool) (l : list A) :
  NoDup (map k l) -> NoDup (map k (filter f l)).
Proof.
  induction l as [| x xs IH]; simpl; intros H; [constructor |].
  inversion H; subst. destruct (f x); simpl; [constructor |]; auto.
  intros Hin. apply H2. apply in_map_iff in Hin.
  destruct Hin as (y & Hy & Hin). apply filter_In in Hin.
  apply in_map_iff. exists y. tauto.
Qed.

(** The pieces of a player stand on pairwise distinct squares. *)
Lemma piecesOf_coords_NoDup (st : state) (pl : player) :
  cellsIndexed st -> NoDup (map coordOf (piecesOf st pl)).
Proof.
  intros Hidx. unfold piecesOf. rewrite flat_map_filter.
  apply NoDup_map_filter. apply (board_coords_NoDup _ 0).
  intros i row j c Hi Hj.
  assert (Hc : cellAt st (Z.of_nat i) (Z.of_nat j) = Some c).
  { unfold cellAt, index.
    destruct (Z.ltb_spec (Z.of_nat i) 0); [lia |]. rewrite Nat2Z.id, Hi.
    destruct (Z.ltb_spec (Z.of_nat j) 0); [lia |]. now rewrite Nat2Z.id. }
  destruct (Hidx _ _ _ Hc). split; lia.
Qed.

Lemma moveOf_inj (pc : cell) (s1 s2 : Z * Z) :
  moveOf pc s1 = moveOf pc s2 -> s1 = s2.
Proof.
  destruct s1, s2. unfold moveOf. simpl. intros [= -> ->]. reflexivity.
Qed.

Lemma perPiece_NoDup (st : state) (pl : player) (pieces : list cell)
    (perPiece : list (list move)) :
  NoDup (map coordOf pieces) ->
  Forall2 (pieceMoves st pl) pieces perPiece ->
  NoDup (List.concat perPiece).
Proof.
  intros Hnd Hall.
  induction Hall as [| pc opts pieces perPiece Hpc Hrest IH]; simpl;
    [constructor |].
  inversion Hnd as [| ? ? Hnotin Hnd']; subst.
  destruct Hpc as (dests & -> & Hd & _).
  apply NoDup_app.
  - apply NoDup_map_NoDup_ForallPairs; [| exact Hd].
    intros s1 s2 _ _. apply moveOf_inj.
  - now apply IH.
  - intros mv Hmv Hmv'. apply in_map_iff in Hmv. destruct Hmv as (s & <- & _).
    destruct (in_concat_rays _ _ _ _ Hrest Hmv')
      as (pc' & opts' & Hpc' & (dests' & -> & _) & Hin).
    apply in_map_iff in Hin. destruct Hin as (s' & Heq & _).
    apply Hnotin. apply in_map_iff. exists pc'. split; [| exact Hpc'].
    unfold moveOf in Heq. unfold coordOf. now injection Heq as _ -> -> _ _.
Qed.

Lemma castlingMoves_NoDup (st : state) (pl : player) :
  NoDup (castlingMoves st pl).
Proof.
  unfold castlingMoves, kingsideMoves, queensideMoves.
  destruct (kingsideOk st pl), (queensideOk st pl); simpl;
    repeat (constructor; [simpl; intuition discriminate |]); constructor.
Qed.

(** X14. On a well-formed position the aggregator never lists the same
    move record twice: the number of moves it reports is a count of
    distinct moves. *)
Theorem getOptionsForPlayer_NoDup (fuel : nat) (st : state) (pl : player) :
  wellFormed st ->
  (8 <= fuel)%nat ->
  exists moves,
    getOptionsForPlayer fuel pl st = (Ok moves, st) /\ NoDup moves.
Proof.
  intros Hwf Hfuel.
  destruct (getOptionsForPlayer_structure fuel st pl Hwf Hfuel)
    as (perPiece & Hrun & Hall).
  eexists. split; [exact Hrun |].
  destruct Hwf as (Hg & Hl & Hidx & Hep).
  apply NoDup_app.
  - apply (perPiece_NoDup st pl (piecesOf st pl)); [| exact Hall].
    now apply piecesOf_coords_NoDup.
  - apply castlingMoves_NoDup.
  - intros mv Hmv Hmv'.
    destruct (castlingMoves_onBoard st pl mv Hmv') as (Hc & _).
    destruct (in_concat_rays _ _ _ _ Hall Hmv)
      as (pc & opts & _ & (dests & -> & _) & Hin).
    apply in_map_iff in Hin. destruct Hin as (s & <- & _). discriminate Hc.
Qed.

Lemma getOptionsForPlayer_witness_position : wellFormed (position fenStart).
Proof.
  assert (H : importFile fenStart = Some (position fenStart))
    by (vm_compute; reflexivity).
  apply (importFile_wellFormed fenStart _ H);
    [apply grid8b_spec; vm_compute; reflexivity | exact I].
Defined.

Lemma getOptionsForPlayer_moves_witness :
  wellFormed (position fenStart) /\ (8 <= 8)%nat /\
  exists moves,
    getOptionsForPlayer 8 White (position fenStart)
    = (Ok moves, position fenStart) /\
    forall mv, In mv moves ->
      onBoard (fromRank mv) (fromFile mv) = true /\
      onBoard (toRank mv) (toFile mv) = true.
Proof.
  split; [exact getOptionsForPlayer_witness_position |]. split; [apply le_n |].
  destruct (getOptionsForPlayer_moves 8 (position fenStart) White
              getOptionsForPlayer_witness_position (le_n 8)) as (moves & Hrun & Hall).
  exists moves. split; [exact Hrun |].
  intros mv Hmv. destruct (Hall mv Hmv) as (H1 & H2 & _). now split.
Defined.

Lemma getOptionsForPlayer_no_own_capture_witness :
  wellFormed (position fenStart) /\ (8 <= 8)%nat /\
  exists moves,
    getOptionsForPlayer 8 White (position fenStart)
    = (Ok moves, position fenStart) /\
    forall mv, In mv moves ->
      castle mv = false -> piece mv <> Lp ->
      ownerOn (position fenStart) (toRank mv) (toFile mv) <> Some White.
Proof.
  split; [exact getOptionsForPlayer_witness_position |]. split; [apply le_n |].
  exact (getOptionsForPlayer_no_own_capture 8 (position fenStart) White
           getOptionsForPlayer_witness_position (le_n 8)).
Defined.

Lemma getOptionsForPlayer_NoDup_witness :
  wellFormed (position fenStart) /\ (8 <= 8)%nat /\
  exists moves,
    getOptionsForPlayer 8 White (position fenStart)
    = (Ok moves, position fenStart) /\ NoDup moves.
Proof.
  split; [exact getOptionsForPlayer_witness_position |]. split; [apply le_n |].
  exact (getOptionsForPlayer_NoDup 8 (position fenStart) White
           getOptionsForPlayer_witness_position (le_n 8)).
Defined.

(** ** The summary *)

Lemma digit_string_inj (a b : Z) :
  0 <= a <= 7 -> 0 <= b <= 7 ->
  numToString (Int a) = numToString (Int b) -> a = b.
Proof.
  intros Ha Hb.
  assert (Ea : a = 0 \/ a = 1 \/ a = 2 \/ a = 3 \/
               a = 4 \/ a = 5 \/ a = 6 \/ a = 7) by lia.
  assert (Eb : b = 0 \/ b = 1 \/ b = 2 \/ b = 3 \/
               b = 4 \/ b = 5 \/ b = 6 \/ b = 7) by lia.
  destruct Ea as [-> | [-> | [-> | [-> | [-> | [-> | [-> | ->]]]]]]],
    Eb as [-> | [-> | [-> | [-> | [-> | [-> | [-> | ->]]]]]]];
    vm_compute; intros H; first [reflexivity | discriminate H].
Qed.

Lemma digit_string_single (a : Z) :
  0 <= a <= 7 -> exists c, numToString (Int a) = String c EmptyString.
Proof.
  intros Ha.
  assert (Ea : a = 0 \/ a = 1 \/ a = 2 \/ a = 3 \/
               a = 4 \/ a = 5 \/ a = 6 \/ a = 7) by lia.
  destruct Ea as [-> | [-> | [-> | [-> | [-> | [-> | [-> | ->]]]]]]];
    eexists; reflexivity.
Qed.

(** Distinct origins on the board have distinct keys. *)
Lemma keyOfOrigin_inj (o1 o2 : letter * (Z * Z)) :
  originOnBoard o1 -> originOnBoard o2 ->
  keyOfOrigin o1 = keyOfOrigin o2 -> o1 = o2.
Proof.
  destruct o1 as [l1 [r1 f1]], o2 as [l2 [r2 f2]].
  unfold originOnBoard, keyOfOrigin. cbn [fst snd].
  intros H1 H2. apply onBoard_spec in H1. apply onBoard_spec in H2.
  destruct (digit_string_single r1 (proj1 H1)) as [cr1 Er1].
  destruct (digit_string_single f1 (proj2 H1)) as [cf1 Ef1].
  destruct (digit_string_single r2 (proj1 H2)) as [cr2 Er2].
  destruct (digit_string_single f2 (proj2 H2)) as [cf2 Ef2].
  intros H.
  assert (Hl : l1 = l2 /\ cr1 = cr2 /\ cf1 = cf2).
  { rewrite Er1, Ef1, Er2, Ef2 in H.
    destruct l1, l2; simpl in H; injection H; intros; subst;
      repeat split; congruence. }
  destruct Hl as (-> & -> & ->).
  rewrite <- Er2 in Er1. rewrite <- Ef2 in Ef1.
  apply digit_string_inj in Er1; try tauto.
  apply digit_string_inj in Ef1; try tauto. now subst.
Qed.

Lemma existsb_key (o : letter * (Z * Z)) (acc : list (letter * (Z * Z))) :
  originOnBoard o -> Forall originOnBoard acc ->
  existsb (String.eqb (keyOfOrigin o)) (map keyOfOrigin acc) = true <-> In o acc.
Proof.
  intros Ho Hacc. rewrite existsb_exists. split.
  - intros (k & Hk & Ek). apply String.eqb_eq in Ek.
    apply in_map_iff in Hk. destruct Hk as (o' & <- & Ho').
    rewrite Forall_forall in Hacc.
    apply keyOfOrigin_inj in Ek; [now subst | exact Ho | now apply Hacc].
  - intros Hin. exists (keyOfOrigin o). split; [now apply in_map |].
    apply String.eqb_refl.
Qed.

Lemma fold_keys (moves : list move) :
  forall acc,
    Forall (fun mv => originOnBoard (originOf mv)) moves ->
    Forall originOnBoard acc -> NoDup acc ->
    exists origins,
      fold_left (fun pre mv => setAdd pre (moveKey mv)) moves (map keyOfOrigin acc)
      = map keyOfOrigin origins /\
      NoDup origins /\
      forall o, In o origins <-> In o acc \/ exists mv, In mv moves /\ originOf mv = o.
Proof.
  induction moves as [| mv rest IH]; intros acc Hm Hacc Hnd.
  - exists acc. split; [reflexivity |]. split; [exact Hnd |].
    intros o. split; [now left | intros [H | (mv & [] & _)]; exact H].
  - inversion Hm as [| ? ? Hmv Hrest]; subst. cbn [fold_left].
    change (moveKey mv) with (keyOfOrigin (originOf mv)). unfold setAdd.
    destruct (existsb (String.eqb (keyOfOrigin (originOf mv)))
                      (map keyOfOrigin acc)) eqn:E.
    + apply (existsb_key _ _ Hmv Hacc) in E.
      destruct (IH acc Hrest Hacc Hnd) as (origins & Hfold & Hn & Hin).
      exists origins. split; [exact Hfold |]. split; [exact Hn |].
      intros o. rewrite Hin. split.
      * intros [H | (mv' & Hmv' & Ho)]; [now left |].
        right. exists mv'. split; [now right | exact Ho].
      * intros [H | (mv' & [<- | Hmv'] & Ho)]; [now left | | ].
        -- left. now subst o.
        -- right. now exists mv'.
    + assert (Hnot : ~ In (originOf mv) acc).
      { intros Hin. apply (existsb_key _ _ Hmv Hacc) in Hin. congruence. }
      destruct (IH (acc ++ [originOf mv]) Hrest) as (origins & Hfold & Hn & Hin).
      { apply Forall_app. split; [exact Hacc | now constructor]. }
      { apply NoDup_app; [exact Hnd | repeat constructor; simpl; tauto |].
        intros x Hx [<- | []]. contradiction. }
      exists origins. rewrite map_app in Hfold. split; [exact Hfold |].
      split; [exact Hn |].
      intros o. rewrite Hin, in_app_iff. simpl. split.
      * intros [[H | [<- | []]] | (mv' & Hmv' & Ho)].
        -- now left.
        -- right. exists mv. split; [now left | reflexivity].
        -- right. exists mv'. split; [now right | exact Ho].
      * intros [H | (mv' & [<- | Hmv'] & Ho)].
        -- left. now left.
        -- left. right. left. exact Ho.
        -- right. now exists mv'.
Qed.

(** X15. For moves whose origins are squares of the board, the "unique
    pieces" figure of the summary is the number of distinct origins (piece
    letter and square) among the moves: the string keys it counts never
    collide on the board. *)
Theorem uniquePieceCount_origins (moves : list move) :
  (forall mv, In mv moves -> onBoard (fromRank mv) (fromFile mv) = true) ->
  exists origins,
    NoDup origins /\
    (forall o, In o origins <-> exists mv, In mv moves /\ originOf mv = o) /\
    uniquePieceCount moves = List.length origins /\
    (uniquePieceCount moves <= List.length moves)%nat.
Proof.
  intros Hon.
  destruct (fold_keys moves []) as (origins & Hfold & Hnd & Hin).
  { apply Forall_forall. intros mv Hmv. now apply Hon. }
  { constructor. }
  { constructor. }
  exists origins. split; [exact Hnd |].
  assert (Hiff : forall o, In o origins <-> exists mv, In mv moves /\ originOf mv = o).
  { intros o. rewrite Hin. simpl. tauto. }
  assert (Hlen : uniquePieceCount moves = List.length origins).
  { unfold uniquePieceCount. simpl in Hfold. now rewrite Hfold, length_map. }
  split; [exact Hiff |]. split; [exact Hlen |].
  rewrite Hlen, <- (length_map originOf moves).
  apply NoDup_incl_length; [exact Hnd |].
  intros o Ho. apply Hiff in Ho. destruct Ho as (mv & Hmv & <-).
  now apply in_map.
Qed.

Lemma uniquePieceCount_origins_witness :
  (forall mv, In mv startMoves -> onBoard (fromRank mv) (fromFile mv) = true) /\
  uniquePieceCount startMoves = 10%nat /\
  exists origins : list (letter * (Z * Z)),
    NoDup origins /\ uniquePieceCount startMoves = List.length origins.
Proof.
  assert (H : forall mv, In mv startMoves ->
                onBoard (fromRank mv) (fromFile mv) = true).
  { intros mv Hmv. vm_compute in Hmv.
    repeat (destruct Hmv as [<- | Hmv]; [reflexivity |]). contradiction. }
  split; [exact H |]. split; [reflexivity |].
  destruct (uniquePieceCount_origins startMoves H) as (origins & Hnd & _ & Hlen & _).
  exists origins. split; assumption.
Defined.

(** ** The program from text to printed lines *)

Lemma rankFormat_onBoard (file : Z) :
  0 <= file <= 7 -> exists c, rankFormat file = Some c.
Proof.
  intros H. unfold rankFormat, fromCharCode.
  destruct (Z.leb_spec 0 (file + 65)); [| lia].
  destruct (Z.ltb_spec (file + 65) 128); [| lia].
  now eexists.
Qed.

Lemma formatMove_onBoard (mv : move) :
  onBoard (fromRank mv) (fromFile mv) = true ->
  onBoard (toRank mv) (toFile mv) = true ->
  exists line, formatMove mv = Some line.
Proof.
  intros Hf Ht. apply onBoard_spec in Hf. apply onBoard_spec in Ht.
  destruct (rankFormat_onBoard (fromFile mv) (proj2 Hf)) as [cf Ef].
  destruct (rankFormat_onBoard (toFile mv) (proj2 Ht)) as [ct Et].
  unfold formatMove. rewrite Ef, Et. now eexists.
Qed.

Lemma mapO_total {A B} (f : A -> option B) (l : list A) :
  (forall x, In x l -> exists y, f x = Some y) ->
  exists ys, mapO f l = Some ys /\ Forall2 (fun x y => f x = Some y) l ys.
Proof.
  induction l as [| x xs IH]; intros H.
  - exists []. split; [reflexivity | constructor].
  - destruct (H x (or_introl eq_refl)) as [y Hy].
    destruct (IH (fun z Hz => H z (or_intror Hz))) as (ys & Hys & Hall).
    exists (y :: ys). split; [simpl; now rewrite Hy, Hys | now constructor].
Qed.

(** X16. On a text of the format whose placement field describes 8 rows
    of 8 cells, the driver raises no error: the text is read into a
    position, move generation for the side to move returns a list, every
    move of it is printed as one line, in order, and the summary line
    comes last. *)
Theorem run_prints (fuel : nat) (text : string) :
  fenFormat text = true ->
  fenBoard8 text = true ->
  (8 <= fuel)%nat ->
  exists st moves lines,
    importFile text = Some st /\
    getOptionsForPlayer fuel (st_playerTurn st) st = (Ok moves, st) /\
    Forall2 (fun mv line => formatMove mv = Some line) moves lines /\
    run fuel text = Some (Ok (lines ++ [summary st moves])).
Proof.
  intros Htext Hb Hfuel.
  destruct (importFile_total text Htext) as (st & Himp & Hep).
  pose proof (importFile_grid8 text st Himp Hb) as Hg.
  pose proof (importFile_wellFormed text st Himp Hg Hep) as Hwf.
  destruct (aggregator_moves_spec fuel st (st_playerTurn st) Hwf Hfuel)
    as (moves & Hrun & Hall).
  destruct (mapO_total formatMove moves) as (lines & Hlines & Hfmt).
  { intros mv Hmv. destruct (Hall mv Hmv) as (Hf & Ht).
    now apply formatMove_onBoard. }
  exists st, moves, lines. split; [exact Himp |].
  split; [exact Hrun |]. split; [exact Hfmt |].
  unfold run. rewrite Himp, Hrun. cbn [fst]. now rewrite Hlines.
Qed.

Lemma run_prints_witness :
  fenFormat fenStart = true /\
  fenBoard8 fenStart = true /\
  (8 <= 8)%nat /\
  exists st moves lines,
    importFile fenStart = Some st /\
    getOptionsForPlayer 8 (st_playerTurn st) st = (Ok moves, st) /\
    Forall2 (fun mv line => formatMove mv = Some line) moves lines /\
    run 8 fenStart = Some (Ok (lines ++ [summary st moves])).
Proof.
  split; [vm_compute; reflexivity |]. split; [vm_compute; reflexivity |].
  split; [apply le_n |].
  exact (run_prints 8 fenStart eq_refl eq_refl (le_n 8)).
Defined.

(** The lines the program prints for the starting position. *)
Example run_start :
  exists lines,
    run 8 fenStart = Some (Ok lines) /\
    List.length lines = 21%nat /\
    nth_error lines 0 = Some "Pawn at <A:2> can move to <A:3>"%string /\
    nth_error lines 20
    = Some "20 legal moves (10 unique pieces) for white player"%string.
Proof. eexists. split; [vm_compute; reflexivity |]. repeat split. Qed.

(** ** The rules as chess states them *)






Lemma jumpOf_mirrors (l : letter) (dr df : Z) :
  l = Ln \/ l = Lk ->
  (jumpOf l dr df <->
   exists b d, In b (baseDirs l) /\ In d (mirrors b) /\ d = (dr, df)).
Proof.
  intros Hl. split.
  - destruct Hl as [-> | ->]; unfold jumpOf; intros H.
    + pose proof (Z.abs_nonneg dr) as Ha. pose proof (Z.abs_nonneg df) as Hb.
      assert (Ha1 : 1 <= Z.abs dr) by nia. assert (Hb1 : 1 <= Z.abs df) by nia.
      assert (Ha2 : Z.abs dr <= 2) by nia. assert (Hb2 : Z.abs df <= 2) by nia.
      assert (Hr : -2 <= dr <= 2) by lia. assert (Hf : -2 <= df <= 2) by lia.
      clear Ha Hb Ha1 Hb1 Ha2 Hb2.
      assert (Er : dr = -2 \/ dr = -1 \/ dr = 0 \/ dr = 1 \/ dr = 2) by lia.
      assert (Ef : df = -2 \/ df = -1 \/ df = 0 \/ df = 1 \/ df = 2) by lia.
      destruct Er as [-> | [-> | [-> | [-> | ->]]]],
        Ef as [-> | [-> | [-> | [-> | ->]]]]; try discriminate H;
        first [ exists (2, 1); eexists; split; [simpl; auto |];
                split; [| reflexivity]; simpl; tauto
              | exists (1, 2); eexists; split; [simpl; auto |];
                split; [| reflexivity]; simpl; tauto ].
    + assert (Hr : -1 <= dr <= 1) by lia. assert (Hf : -1 <= df <= 1) by lia.
      assert (Er : dr = -1 \/ dr = 0 \/ dr = 1) by lia.
      assert (Ef : df = -1 \/ df = 0 \/ df = 1) by lia.
      destruct Er as [-> | [-> | ->]], Ef as [-> | [-> | ->]];
        try discriminate H;
        first [ exists (1, 0); eexists; split; [simpl; auto |];
                split; [| reflexivity]; simpl; tauto
              | exists (0, 1); eexists; split; [simpl; auto |];
                split; [| reflexivity]; simpl; tauto
              | exists (1, 1); eexists; split; [simpl; auto |];
                split; [| reflexivity]; simpl; tauto ].
  - intros (b & d & Hb & Hd & ->).
    destruct Hl as [-> | ->]; simpl in Hb;
      repeat (destruct Hb as [<- | Hb];
              [simpl in Hd;
               repeat (destruct Hd as [Hd | Hd];
                       [injection Hd as <- <-; reflexivity |]);
               contradiction |]);
      contradiction.
Qed.

(** X18. The knight and king rules, whole: a knight returns a square
    exactly when it is an L-jump away (one step along one axis and two
    along the other), a king exactly when it is an adjacent square; in
    both cases the square must be on the board and empty or held by a side
    other than the piece's own.  Pieces in between play no part. *)
Theorem leaper_reaches (fuel : nat) (st : state) (p : cell) (l : letter) :
  grid8 st ->
  l = Ln \/ l = Lk ->
  exists rule moves,
    rules fuel l = Some rule /\
    rule p st = (Ok moves, st) /\
    forall s,
      In s moves <->
      jumpOf l (fst s - c_rank p) (snd s - c_file p) /\
      onBoard (fst s) (snd s) = true /\
      (occupied st (fst s) (snd s) = false \/
       ownerOn st (fst s) (snd s) <> c_owner p).
Proof.
  intros Hg Hl.
  destruct (leaper_table_spec st (baseDirs l) p Hg) as (moves & Hrun & _ & Hiff).
  exists (leaper (baseDirs l)), moves.
  split; [destruct Hl as [-> | ->]; reflexivity |].
  split; [exact Hrun |].
  intros s. rewrite Hiff, (jumpOf_mirrors l _ _ Hl).
  enough (H : (exists b d, In b (baseDirs l) /\ In d (mirrors b) /\ s = target p d)
              <-> (exists b d, In b (baseDirs l) /\ In d (mirrors b) /\
                               d = (fst s - c_rank p, snd s - c_file p)))
    by tauto.
  split; intros (b & d & Hb & Hd & E); exists b, d;
    (split; [exact Hb |]); (split; [exact Hd |]);
    destruct s as [r f], d as [d0 d1]; unfold target in *; cbn [fst snd] in *;
    injection E as E0 E1; f_equal; lia.
Qed.

Lemma leaper_reaches_witness :
  grid8 (position fenStart) /\
  (Ln = Ln \/ Ln = Lk) /\
  exists rule moves,
    rules 8 Ln = Some rule /\
    rule (mkCell Ln 7 1 (Some White)) (position fenStart)
    = (Ok moves, position fenStart) /\
    In (5, 2) moves.
Proof.
  assert (Hg : grid8 (position fenStart))
    by (apply grid8b_spec; vm_compute; reflexivity).
  assert (Hl : Ln = Ln \/ Ln = Lk) by (left; reflexivity).
  split; [exact Hg |]. split; [exact Hl |].
  destruct (leaper_reaches 8 (position fenStart) (mkCell Ln 7 1 (Some White))
              Ln Hg Hl) as (rule & moves & Hrule & Hrun & Hiff).
  exists rule, moves. split; [exact Hrule |]. split; [exact Hrun |].
  apply Hiff. split; [reflexivity |]. split; [reflexivity | left; reflexivity].
Defined.



(** X20. The destination test in terms of the ownership test: for a
    player, a square passes [movableSpace] exactly when it is on the board
    and [ownedPieceAt] says the player does not own it; and a square
    holds a piece exactly when one of the two sides owns it. *)
Theorem movableSpace_ownedPieceAt (st : state) (rank file : Z) (pl : player) :
  grid8 st ->
  exists own white black,
    ownedPieceAt rank file (Some pl) st = (Ok own, st) /\
    movableSpace rank file (Some pl) st = (Ok (onBoard rank file && negb own), st) /\
    ownedPieceAt rank file (Some White) st = (Ok white, st) /\
    ownedPieceAt rank file (Some Black) st = (Ok black, st) /\
    pieceAt rank file st = (Ok (white || black), st).
Proof.
  intros Hg. do 3 eexists.
  split; [now apply ownedPieceAt_run |].
  split.
  - rewrite (movableSpace_run st rank file (Some pl) Hg). unfold occupied.
    destruct (onBoard rank file); [| reflexivity].
    destruct (ownerOn st rank file) as [[|] |], pl; reflexivity.
  - split; [now apply ownedPieceAt_run |].
    split; [now apply ownedPieceAt_run |].
    rewrite (pieceAt_run st rank file Hg).
    destruct (onBoard rank file) eqn:Hon.
    + unfold occupied. destruct (ownerOn st rank file) as [[|] |]; reflexivity.
    + now rewrite occupied_offBoard.
Qed.

Lemma movableSpace_ownedPieceAt_witness :
  grid8 (position fenStart) /\
  exists own,
    ownedPieceAt 6 0 (Some White) (position fenStart)
    = (Ok own, position fenStart) /\
    movableSpace 6 0 (Some White) (position fenStart)
    = (Ok (onBoard 6 0 && negb own), position fenStart).
Proof.
  assert (Hg : grid8 (position fenStart))
    by (apply grid8b_spec; vm_compute; reflexivity).
  split; [exact Hg |].
  destruct (movableSpace_ownedPieceAt (position fenStart) 6 0 White Hg)
    as (own & white & black & H1 & H2 & _).
  exists own. split; assumption.
Defined.
